(** * Put Opportunity Finder: the frontend's classification and expiration logic

    A shallow embedding of [frontend/src/App.tsx]: the row classifier
    ([classifyRow]), the per-expiration display pipeline of the [App]
    component (merge, sort by strike, first-pass classification, promotion
    to [best], score symbols), the weekly expiration generator
    ([buildExpirationList]), the batch fetch ([fetchAll]), the handlers of
    the control panel, the countdown of the auto-refresh, the provider
    label and [formatNumber].

    Numbers.  Every number the pipeline sees comes out of [resp.json()], so
    it is a finite IEEE double (JSON has no syntax for NaN).  A finite
    double denotes a rational, and the operations the pipeline applies to
    numbers ([===], [Math.max], the sign of [a - b] in the sort comparator)
    agree on finite doubles with the same operations on the rationals they
    denote.  Numbers are therefore modelled as [Q], compared with [Qeq] and
    [Qle]. *)

From Stdlib Require Import ZArith QArith Qround Qabs List String Ascii Bool Lia Lqa.
From Stdlib Require Import Sorted Permutation.
From Stdlib Require Import DecimalString DecimalN DecimalPos DecimalZ.
Import ListNotations.

Local Open Scope string_scope.
Local Open Scope list_scope.

(** ** Data model (the interfaces at the top of App.tsx) *)

Definition number : Type := Q.

(** [x?: T | null] and [x: T | null] are both [option T]: the code only ever
    tests them with [!= null] / [??], which treat [null] and [undefined]
    alike. *)
Record BaseOptionRow : Type := {
  option_ticker : string;
  strike_price : number;
  last : option number;
  bid : option number;
  ask : option number;
  put_mid : option number;
  delta : option number;
  iv : option number;
  greeks_source : option string;
  volume : option number;
  open_interest : option number;
  distance_to_lower_band : option number;
  credit_pct : option number
}.

(** The [type] field of [OpportunityRow]: ["opportunity" | "neighbor"]. *)
Inductive RowType : Type := type_opportunity | type_neighbor.

Record OpportunityRow : Type := {
  base_fields : BaseOptionRow;
  meets_band : bool;
  meets_delta : bool;
  meets_credit : bool;
  type : RowType
}.

Record IncompleteRow : Type := {
  incomplete_fields : BaseOptionRow;
  reason_missing : string
}.

Record RollingResponse : Type := {
  status : string;
  ticker : string;
  expiration_date : string;
  atm_strike : number;
  em : number;
  spot_approx : number;
  lower_band : number;
  delta_range : number * number;
  credit_pct_range : number * number;
  count : number;
  opportunities : list OpportunityRow;
  neighbors : list OpportunityRow;
  incomplete : list IncompleteRow
}.

Inductive Classification : Type :=
  | best
  | opportunity
  | candidate_strong
  | candidate
  | neighbor.

(** [ClassifiedRow extends OpportunityRow]: the spread [{...row, ...}] keeps
    every field of the row, so the row is carried whole. *)
Record ClassifiedRow : Type := {
  row : OpportunityRow;
  classification : Classification;
  score : string;
  rowClass : string
}.

Definition RowType_eqb (a b : RowType) : bool :=
  match a, b with
  | type_opportunity, type_opportunity => true
  | type_neighbor, type_neighbor => true
  | _, _ => false
  end.

Definition Classification_eqb (a b : Classification) : bool :=
  match a, b with
  | best, best => true
  | opportunity, opportunity => true
  | candidate_strong, candidate_strong => true
  | candidate, candidate => true
  | neighbor, neighbor => true
  | _, _ => false
  end.

Definition row_strike (r : OpportunityRow) : number :=
  strike_price (base_fields r).

Definition row_credit (r : OpportunityRow) : option number :=
  credit_pct (base_fields r).

(** ** Helpers of App.tsx *)

(** [classifyRow], the first-pass classification. *)
Definition classifyRow (r : OpportunityRow) : Classification :=
  if RowType_eqb (type r) type_neighbor then neighbor
  else if negb (meets_band r) then neighbor
  else if meets_delta r && meets_credit r then opportunity
  else if negb (Bool.eqb (meets_delta r) (meets_credit r)) then candidate_strong
  else candidate.

(** [scoreForClassification]: the two markers are the UTF-8 strings of
    U+2605 and U+2713. *)
Definition scoreForClassification (c : Classification) : string :=
  match c with
  | best => "★"
  | opportunity => "✓"
  | _ => ""
  end.

Definition rowClassForClassification (c : Classification) : string :=
  match c with
  | best => "row-best"
  | opportunity => "row-best"
  | candidate_strong => "row-opportunity"
  | candidate => "row-candidate"
  | neighbor => "row-neighbor"
  end.

(** ** The other copy of the helpers

    The repository holds a second copy of the component whose helpers
    differ: no second pass and no [type] test, four classes decided by the
    flags alone, and a dash as the default score.  It is recorded here for
    comparison; the properties below are about [frontend/src/App.tsx]. *)
Module Legacy.

Inductive Classification : Type :=
  | best
  | strong
  | weak
  | neighbor.

Definition classifyRow (r : OpportunityRow) : Classification :=
  if meets_band r && meets_delta r && meets_credit r then best
  else if meets_band r && meets_delta r then strong
  else if meets_band r then weak
  else neighbor.

Definition scoreForClassification (c : Classification) : string :=
  match c with
  | best => "★"
  | strong => "✓"
  | _ => "-"
  end.

End Legacy.

(** ** JavaScript built-ins used by the display pipeline *)

Section ArraySort.
Context {A : Type}.
Variable cmp : A -> A -> number.

(** [x] came before every element of [l] in the source array: it stays in
    front of [y] unless the comparator says [x] is greater. *)
Fixpoint sort_insert (x : A) (l : list A) : list A :=
  match l with
  | [] => [x]
  | y :: l' =>
      if Qle_bool (cmp x y) 0 then x :: y :: l' else y :: sort_insert x l'
  end.

(** [Array.prototype.sort(cmp)].  The sort is stable (ES2019), and for a
    consistent comparator its result is the one stable ordering of the
    array, whatever algorithm the engine runs; insertion from the right
    computes that ordering. *)
Fixpoint Array_sort (l : list A) : list A :=
  match l with
  | [] => []
  | x :: l' => sort_insert x (Array_sort l')
  end.
End ArraySort.

(** A JavaScript number in full: the finite ones of [number], the two
    infinities and NaN.  [Math.max] and [Number] range over it. *)
Inductive jsnum : Type :=
  | NaN
  | NegInfinity
  | PosInfinity
  | Finite (q : number).

(** One step of [Math.max] (ECMA-262, Math.max): "if number > highest, set
    highest to number". *)
Definition max_step (highest : jsnum) (n : number) : jsnum :=
  match highest with
  | NaN => NaN
  | NegInfinity => Finite n
  | PosInfinity => PosInfinity
  | Finite h => if Qle_bool n h then Finite h else Finite n
  end.

(** [Math.max(...xs)]: "let highest be -Infinity", then one step per
    argument. *)
Definition Math_max (xs : list number) : jsnum :=
  fold_left max_step xs NegInfinity.

(** [c === m] for a finite number [c]. *)
Definition strict_eq (c : number) (m : jsnum) : bool :=
  match m with
  | Finite q => Qeq_bool c q
  | _ => false
  end.

(** ** The per-expiration display pipeline ([records.map((data) => ...)]) *)

Definition by_strike (a b : OpportunityRow) : number :=
  (row_strike a - row_strike b)%Q.

Definition incomplete_by_strike (a b : IncompleteRow) : number :=
  (strike_price (incomplete_fields a) - strike_price (incomplete_fields b))%Q.

Definition baseRows (data : RollingResponse) (showNeighbors : bool)
  : list OpportunityRow :=
  opportunities data ++ (if showNeighbors then neighbors data else []).

Definition sorted (data : RollingResponse) (showNeighbors : bool)
  : list OpportunityRow :=
  Array_sort by_strike (baseRows data showNeighbors).

Definition prelim (data : RollingResponse) (showNeighbors : bool)
  : list ClassifiedRow :=
  map (fun r =>
         {| row := r; classification := classifyRow r;
            score := ""; rowClass := "" |})
      (sorted data showNeighbors).

Definition is_full_match (r : ClassifiedRow) : bool :=
  Classification_eqb (classification r) opportunity
  && match row_credit (row r) with Some _ => true | None => false end.

Definition fullMatches (data : RollingResponse) (showNeighbors : bool)
  : list ClassifiedRow :=
  filter is_full_match (prelim data showNeighbors).

(** [r.credit_pct ?? 0] *)
Definition credit_or_zero (r : ClassifiedRow) : number :=
  match row_credit (row r) with Some c => c | None => 0%Q end.

(** [fullMatches.length > 0 ? Math.max(...) : null] *)
Definition maxCredit (data : RollingResponse) (showNeighbors : bool)
  : option jsnum :=
  if (0 <? List.length (fullMatches data showNeighbors))%nat
  then Some (Math_max (map credit_or_zero (fullMatches data showNeighbors)))
  else None.

(** The body of [prelim.map((row) => ...)] that builds [rowsWithScore]. *)
Definition promote (maxc : option jsnum) (r : ClassifiedRow) : ClassifiedRow :=
  let classification' :=
    match classification r, maxc, row_credit (row r) with
    | opportunity, Some m, Some c =>
        if strict_eq c m then best else classification r
    | _, _, _ => classification r
    end in
  {| row := row r;
     classification := classification';
     score := scoreForClassification classification';
     rowClass := rowClassForClassification classification' |}.

Definition rowsWithScore (data : RollingResponse) (showNeighbors : bool)
  : list ClassifiedRow :=
  map (promote (maxCredit data showNeighbors)) (prelim data showNeighbors).

Definition hasRows (data : RollingResponse) (showNeighbors : bool) : bool :=
  (0 <? List.length (rowsWithScore data showNeighbors))%nat.

Definition incompleteSorted (data : RollingResponse) : list IncompleteRow :=
  Array_sort incomplete_by_strike (incomplete data).

Definition hasIncomplete (data : RollingResponse) : bool :=
  (0 <? List.length (incompleteSorted data))%nat.

(** Orderings and the maximality the properties below speak of. *)

Definition ascending_by_strike (a b : ClassifiedRow) : Prop :=
  (row_strike (row a) <= row_strike (row b))%Q.

Definition incomplete_ascending_by_strike (a b : IncompleteRow) : Prop :=
  (strike_price (incomplete_fields a) <= strike_price (incomplete_fields b))%Q.

(** The rows of the first pass that are [opportunity], carry a credit and
    whose credit no other such row exceeds. *)
Definition maximal_full_match (rows : list ClassifiedRow) (p : ClassifiedRow) : Prop :=
  classification p = opportunity /\
  exists c, row_credit (row p) = Some c /\
    forall q c', In q rows -> classification q = opportunity ->
                 row_credit (row q) = Some c' -> (c' <= c)%Q.

(** ** Time values and the calendar (ECMA-262, section 21.4.1)

    A time value is a whole number of milliseconds since the epoch, or NaN;
    the day-level abstract operations below are the ones of the standard,
    over [Z] ([/] is floor division and [mod] takes the sign of the divisor,
    as the standard's [floor] and [modulo] do). *)

Local Open Scope Z_scope.

Definition msPerDay : Z := 86400000.

Definition Day (t : Z) : Z := t / msPerDay.

Definition TimeWithinDay (t : Z) : Z := t mod msPerDay.

Definition DaysInYear (y : Z) : Z :=
  if negb (y mod 4 =? 0) then 365
  else if negb (y mod 100 =? 0) then 366
  else if negb (y mod 400 =? 0) then 365
  else 366.

Definition DayFromYear (y : Z) : Z :=
  365 * (y - 1970) + (y - 1969) / 4 - (y - 1901) / 100 + (y - 1601) / 400.

Definition TimeFromYear (y : Z) : Z := msPerDay * DayFromYear y.

(** The standard defines [YearFromTime(t)] as "the largest integer [y] such
    that [TimeFromYear(y) <= t]".  It is computed here from the mean year
    length (146097 days in 400 years), which is off by at most one year;
    [YearFromTime_largest] proves that the result is the year the standard
    asks for. *)
Definition YearFromDay (day : Z) : Z :=
  let y0 := 1970 + day * 400 / 146097 in
  if DayFromYear (y0 + 1) <=? day then y0 + 1
  else if DayFromYear y0 <=? day then y0
  else y0 - 1.

Definition YearFromTime (t : Z) : Z := YearFromDay (Day t).

Definition InLeapYear (t : Z) : Z :=
  if DaysInYear (YearFromTime t) =? 366 then 1 else 0.

Definition DayWithinYear (t : Z) : Z := Day t - DayFromYear (YearFromTime t).

Definition MonthFromTime (t : Z) : Z :=
  let d := DayWithinYear t in
  let leap := InLeapYear t in
  if d <? 31 then 0
  else if d <? 59 + leap then 1
  else if d <? 90 + leap then 2
  else if d <? 120 + leap then 3
  else if d <? 151 + leap then 4
  else if d <? 181 + leap then 5
  else if d <? 212 + leap then 6
  else if d <? 243 + leap then 7
  else if d <? 273 + leap then 8
  else if d <? 304 + leap then 9
  else if d <? 334 + leap then 10
  else 11.

Definition DateFromTime (t : Z) : Z :=
  let d := DayWithinYear t in
  let leap := InLeapYear t in
  match MonthFromTime t with
  | 0 => d + 1
  | 1 => d - 30
  | 2 => d - 58 - leap
  | 3 => d - 89 - leap
  | 4 => d - 119 - leap
  | 5 => d - 150 - leap
  | 6 => d - 180 - leap
  | 7 => d - 211 - leap
  | 8 => d - 242 - leap
  | 9 => d - 272 - leap
  | 10 => d - 303 - leap
  | _ => d - 333 - leap
  end.

(** Day within the year of the first day of month [mn] (0 = January): the
    lower bounds of the [MonthFromTime] table. *)
Definition MonthStartDay (mn leap : Z) : Z :=
  match mn with
  | 0 => 0
  | 1 => 31
  | 2 => 59 + leap
  | 3 => 90 + leap
  | 4 => 120 + leap
  | 5 => 151 + leap
  | 6 => 181 + leap
  | 7 => 212 + leap
  | 8 => 243 + leap
  | 9 => 273 + leap
  | 10 => 304 + leap
  | _ => 334 + leap
  end.

Definition maxTimeValue : Z := 8640000000000000.

(** [TimeClip]: [None] is NaN. *)
Definition TimeClip (time : Z) : option Z :=
  if Z.abs time >? maxTimeValue then None else Some time.

(** [MakeDay(year, month, date)] on integral arguments: "find a finite time
    value [t] such that [YearFromTime(t)] is [ym], [MonthFromTime(t)] is [mn]
    and [DateFromTime(t)] is 1; but if this is not possible, return NaN";
    then [Day(t) + dt - 1].  The standard adds in double arithmetic; the sum
    is exact whenever the resulting date is within the range [TimeClip]
    accepts, and outside that range the date is NaN either way. *)
Definition MakeDay (year month date : Z) : option Z :=
  let ym := year + month / 12 in
  let mn := month mod 12 in
  let leap := if DaysInYear ym =? 366 then 1 else 0 in
  let dayT := DayFromYear ym + MonthStartDay mn leap in
  match TimeClip (dayT * msPerDay) with
  | None => None
  | Some _ => Some (dayT + date - 1)
  end.

(** [MakeDate(day, time)] *)
Definition MakeDate (day time : Z) : Z := day * msPerDay + time.

(** [ToIntegerOrInfinity] on a finite number: truncation towards zero. *)
Definition truncate (q : number) : Z := Z.quot (Qnum q) (Z.pos (Qden q)).

(** [MakeFullYear(year)] *)
Definition MakeFullYear (year : jsnum) : jsnum :=
  match year with
  | Finite q =>
      let truncated := truncate q in
      if (0 <=? truncated) && (truncated <=? 99)
      then Finite (inject_Z (1900 + truncated))
      else Finite (inject_Z truncated)
  | other => other
  end.

(** [Date.UTC(year, month, date)]: hours, minutes, seconds and milliseconds
    default to 0, so [MakeTime] contributes 0.  An argument that is not
    finite makes [MakeDay] return NaN. *)
Definition Date_UTC (year month date : jsnum) : option Z :=
  match MakeFullYear year, month, date with
  | Finite yr, Finite m, Finite dt =>
      match MakeDay (truncate yr) (truncate m) (truncate dt) with
      | None => None
      | Some day => TimeClip (MakeDate day 0)
      end
  | _, _, _ => None
  end.

(** A [Date] object is its time value ([None] is an invalid date).
    [new Date(tv)] clips the number it is given; [new Date(dateObject)]
    copies the time value. *)
Definition DateObject : Type := option Z.

Definition new_Date (tv : option Z) : DateObject :=
  match tv with
  | None => None
  | Some t => TimeClip t
  end.

Definition new_Date_copy (d : DateObject) : DateObject := d.

(** The getters return NaN ([None]) on an invalid date. *)
Definition getUTCFullYear (d : DateObject) : option Z := option_map YearFromTime d.
Definition getUTCMonth (d : DateObject) : option Z := option_map MonthFromTime d.
Definition getUTCDate (d : DateObject) : option Z := option_map DateFromTime d.

(** [d.setUTCDate(dt)]: the new time value of [d]. *)
Definition setUTCDate (d : DateObject) (dt : option Z) : DateObject :=
  match d, dt with
  | Some t, Some date =>
      match MakeDay (YearFromTime t) (MonthFromTime t) date with
      | None => None
      | Some day => TimeClip (MakeDate day (TimeWithinDay t))
      end
  | _, _ => None
  end.

(** ** Calendar dates

    Calendar dates as the specification speaks of them: a year, a month
    (1 to 12) and a day of the month, the next calendar day, and a date
    written YYYY-MM-DD. *)
Definition leap_day (y : Z) : Z := if DaysInYear y =? 366 then 1 else 0.

Definition DaysInMonth (y m : Z) : Z :=
  match m with
  | 2 => 28 + leap_day y
  | 4 | 6 | 9 | 11 => 30
  | _ => 31
  end.

Definition valid_date (y m d : Z) : Prop :=
  1 <= m <= 12 /\ 1 <= d <= DaysInMonth y m.

Definition next_day (c : Z * Z * Z) : Z * Z * Z :=
  let '(y, m, d) := c in
  if d <? DaysInMonth y m then (y, m, d + 1)
  else if m <? 12 then (y, m + 1, 1)
  else (y + 1, 1, 1).

(** [n] calendar days after [c]. *)
Definition add_days (n : nat) (c : Z * Z * Z) : Z * Z * Z :=
  Nat.iter n next_day c.

(** The day number of a calendar date, counted from the epoch. *)
Definition day_number (c : Z * Z * Z) : Z :=
  let '(y, m, d) := c in
  DayFromYear y + MonthStartDay (m - 1) (leap_day y) + d - 1.

(** The last day a time value reaches: 8.64e15 ms are 100,000,000 days. *)
Definition maxDay : Z := 100000000.

(** ** Strings and number conversion *)

(** [s.split(sep)] for a one-character separator: the pieces between the
    occurrences of [sep]; a string without [sep] is a single piece. *)
Fixpoint split (sep : ascii) (s : string) : list string :=
  match s with
  | EmptyString => [EmptyString]
  | String c s' =>
      if Ascii.eqb c sep then EmptyString :: split sep s'
      else match split sep s' with
           | [] => [String c EmptyString]
           | piece :: pieces => String c piece :: pieces
           end
  end.

Fixpoint repeat_char (c : ascii) (n : nat) : string :=
  match n with
  | O => EmptyString
  | S n' => String c (repeat_char c n')
  end.

(** [s.padStart(targetLength, c)] with a one-character filler. *)
Definition padStart (targetLength : nat) (c : ascii) (s : string) : string :=
  (repeat_char c (targetLength - String.length s) ++ s)%string.

(** [String(n)] for an integral number or NaN ([None]); also what a template
    literal does with such a number. *)
Definition String_of (n : option Z) : string :=
  match n with
  | None => "NaN"
  | Some z => NilZero.string_of_int (Z.to_int z)
  end.

(** A calendar date written YYYY-MM-DD. *)
Definition iso_date (c : Z * Z * Z) : string :=
  let '(y, m, d) := c in
  (padStart 4 "0" (String_of (Some y)) ++ "-" ++
   padStart 2 "0" (String_of (Some m)) ++ "-" ++
   padStart 2 "0" (String_of (Some d)))%string.

(** No character of [s] is the separator ["-"]. *)
Fixpoint no_dash (s : string) : bool :=
  match s with
  | EmptyString => true
  | String c s' => negb (Ascii.eqb c "-") && no_dash s'
  end.

(** [f] holds of the [n] integers from [lo] on. *)
Fixpoint all_in_range (f : Z -> bool) (lo : Z) (n : nat) : bool :=
  match n with
  | O => true
  | S n' => f lo && all_in_range f (lo + 1) n'
  end.

(** Truthiness of a number: [!y] holds for NaN and for zero. *)
Definition truthy (x : jsnum) : bool :=
  match x with
  | NaN => false
  | Finite q => negb (Qeq_bool q 0)
  | _ => true
  end.

Definition maxSafeInteger : Z := 9007199254740992.

(** An integer of magnitude at most 2^53: every such value is a double. *)
Definition is_exact_integer (q : number) : bool :=
  let r := Qred q in
  (Z.pos (Qden r) =? 1) && (Z.abs (Qnum r) <=? maxSafeInteger).

Section Doubles.
(** Two pieces of the language are left open, and everything below holds
    for any way of filling them in.
    - [StringToNumber_other s] is the value of [Number(s)] for a string
      that is not a plain run of decimal digits (white space, signs,
      fractions, exponents, other radices, ["Infinity"], or anything that
      is not a numeric literal and gives NaN).
    - [roundToDouble x] is the double nearest to the real [x], for results
      that are not integers of magnitude at most 2^53 (those are exact). *)
Variable StringToNumber_other : string -> jsnum.
Variable roundToDouble : number -> jsnum.

(** [Number(s)].  A run of decimal digits, leading zeros allowed, is its
    decimal value; the empty string is 0. *)
Definition Number (s : string) : jsnum :=
  match NilEmpty.uint_of_string s with
  | Some u =>
      let n := Z.of_N (N.of_uint u) in
      if n <=? maxSafeInteger then Finite (inject_Z n)
      else roundToDouble (inject_Z n)
  | None => StringToNumber_other s
  end.

(** [x - y] on numbers. *)
Definition js_sub (x y : jsnum) : jsnum :=
  match x, y with
  | NaN, _ | _, NaN => NaN
  | PosInfinity, PosInfinity | NegInfinity, NegInfinity => NaN
  | PosInfinity, _ | _, NegInfinity => PosInfinity
  | NegInfinity, _ | _, PosInfinity => NegInfinity
  | Finite a, Finite b =>
      let r := (a - b)%Q in
      if is_exact_integer r then Finite r else roundToDouble r
  end.

(** The [for (let i = 0; i < count; i++)] loops: the values [i] takes.
    [count] is [numExpirations], which [handleNumExpChange] keeps an
    integer. *)
Definition loop_indices (count : Z) : list Z :=
  map Z.of_nat (seq 0 (Z.to_nat count)).

(** [buildExpirationList(base, count)] *)
Definition buildExpirationList (base : string) (count : Z) : list string :=
  match split "-" base with
  | [yStr; mStr; dStr] =>
      let y := Number yStr in
      let m := Number mStr in
      let d := Number dStr in
      if negb (truthy y) || negb (truthy m) || negb (truthy d) then
        map (fun _ => base) (loop_indices count)
      else
        let baseDate := new_Date (Date_UTC y (js_sub m (Finite 1%Q)) d) in
        map (fun i =>
               let dt := new_Date_copy baseDate in
               let dt := setUTCDate dt
                           (option_map (fun date => date + 7 * i)
                                       (getUTCDate baseDate)) in
               let yyyy := getUTCFullYear dt in
               let mm := padStart 2 "0"
                           (String_of (option_map (fun mo => mo + 1)
                                                  (getUTCMonth dt))) in
               let dd := padStart 2 "0" (String_of (getUTCDate dt)) in
               (String_of yyyy ++ "-" ++ mm ++ "-" ++ dd)%string)
            (loop_indices count)
  | _ =>
      (* parts.length !== 3 *)
      map (fun _ => base) (loop_indices count)
  end.
End Doubles.

(** ** The batch fetch ([fetchAll]) *)

Record QueryParams : Type := {
  qp_ticker : string;
  qp_expiration : string;
  qp_deltaMin : number;
  qp_deltaMax : number;
  qp_bandWindow : number;
  qp_creditMin : number;
  qp_creditMax : number;
  qp_showNeighbors : bool;
  qp_numExpirations : Z
}.

(** The request [fetchAll] builds for one expiration date: the path
    parameter and the six query parameters it sets on the URL. *)
Record Request : Type := {
  rq_ticker : string;
  rq_expiration_date : string;
  rq_delta_min : number;
  rq_delta_max : number;
  rq_band_window : number;
  rq_credit_min_pct : number;
  rq_credit_max_pct : number
}.

(** A thrown value, seen through what the [catch] block reads of it:
    [e?.message]. *)
Record JsError : Type := { message : option string }.

(** A settled promise. *)
Inductive Settled (A : Type) : Type :=
  | Fulfilled (value : A)
  | Rejected (reason : JsError).
Arguments Fulfilled {A} value.
Arguments Rejected {A} reason.

(** What [fetch] resolves to: [resp.ok], [resp.status] and the promise
    [resp.json()] returns. *)
Record Response : Type := {
  ok : bool;
  http_status : Z;
  json : Settled RollingResponse
}.

(** What surrounds one call of [fetchAll]: the backend behind [fetch]
    ([fetch i rq] is what the [i]-th request of the call, [rq], settles to),
    the order in which the per-expiration promises settle (indices into the
    list of expirations, earliest first) and the clock read by [new Date()]. *)
Record World : Type := {
  fetch : nat -> Request -> Settled Response;
  settleOrder : list nat;
  now : Z
}.

(** The component state [fetchAll] reads and writes (the [useState] cells). *)
Record AppState : Type := {
  st_ticker : string;
  st_expiration : string;
  st_deltaMin : number;
  st_deltaMax : number;
  st_creditMin : number;
  st_creditMax : number;
  st_bandWindow : number;
  st_numExpirations : Z;
  st_showNeighbors : bool;
  records : list RollingResponse;
  loading : bool;
  error : option string;
  lastUpdated : option Z;
  lastQuery : option QueryParams
}.

(** The elements of an array with their indices. *)
Definition indexed {A : Type} (l : list A) : list (nat * A) :=
  combine (seq 0 (List.length l)) l.

Definition rejected_reason {A : Type} (p : Settled A) : option JsError :=
  match p with
  | Fulfilled _ => None
  | Rejected e => Some e
  end.

Fixpoint all_fulfilled {A : Type} (ps : list (Settled A)) : option (list A) :=
  match ps with
  | [] => Some []
  | Fulfilled v :: ps' => option_map (cons v) (all_fulfilled ps')
  | Rejected _ :: _ => None
  end.

Fixpoint first_some {A : Type} (l : list (option A)) : option A :=
  match l with
  | [] => None
  | Some a :: _ => Some a
  | None :: l' => first_some l'
  end.

(** [Promise.all(ps)]: fulfilled with all the values, in the order of [ps],
    when every promise is fulfilled; otherwise rejected with the reason of
    the promise that rejects first.  [order] lists the promises in the order
    they settle; should it leave a rejected promise out, the promises not
    listed are taken to settle afterwards, in index order. *)
Definition Promise_all {A : Type} (order : list nat) (ps : list (Settled A))
  : Settled (list A) :=
  match all_fulfilled ps with
  | Some values => Fulfilled values
  | None =>
      let in_order :=
        map (fun i => match nth_error ps i with
                      | Some p => rejected_reason p
                      | None => None
                      end) order in
      match first_some (in_order ++ map rejected_reason ps) with
      | Some e => Rejected e
      | None => Fulfilled []
      end
  end.

Section FetchAll.
Variable StringToNumber_other : string -> jsnum.
Variable roundToDouble : number -> jsnum.
Variable world : World.

(** [params ?? lastQuery ?? { ticker, expiration, ... }] *)
Definition effective_params (params : option QueryParams) (st : AppState)
  : QueryParams :=
  match params with
  | Some p => p
  | None =>
      match lastQuery st with
      | Some p => p
      | None =>
          {| qp_ticker := st_ticker st;
             qp_expiration := st_expiration st;
             qp_deltaMin := st_deltaMin st;
             qp_deltaMax := st_deltaMax st;
             qp_bandWindow := st_bandWindow st;
             qp_creditMin := st_creditMin st;
             qp_creditMax := st_creditMax st;
             qp_showNeighbors := st_showNeighbors st;
             qp_numExpirations := st_numExpirations st |}
      end
  end.

(** The async callback of [expirations.map(async (expDate) => ...)], called
    on the [i]-th expiration: the promise it returns, settled. *)
Definition fetch_expiration (effective : QueryParams) (i : nat) (expDate : string)
  : Settled RollingResponse :=
  let url :=
    {| rq_ticker := qp_ticker effective;
       rq_expiration_date := expDate;
       rq_delta_min := qp_deltaMin effective;
       rq_delta_max := qp_deltaMax effective;
       rq_band_window := qp_bandWindow effective;
       rq_credit_min_pct := qp_creditMin effective;
       rq_credit_max_pct := qp_creditMax effective |} in
  match fetch world i url with
  | Rejected e => Rejected e
  | Fulfilled resp =>
      if negb (ok resp) then
        Rejected {| message :=
                      Some ("HTTP " ++ String_of (Some (http_status resp)))%string |}
      else json resp
  end.

Definition set_loading (b : bool) (st : AppState) : AppState :=
  {| st_ticker := st_ticker st; st_expiration := st_expiration st;
     st_deltaMin := st_deltaMin st; st_deltaMax := st_deltaMax st;
     st_creditMin := st_creditMin st; st_creditMax := st_creditMax st;
     st_bandWindow := st_bandWindow st;
     st_numExpirations := st_numExpirations st;
     st_showNeighbors := st_showNeighbors st;
     records := records st; loading := b; error := error st;
     lastUpdated := lastUpdated st; lastQuery := lastQuery st |}.

Definition set_error (e : option string) (st : AppState) : AppState :=
  {| st_ticker := st_ticker st; st_expiration := st_expiration st;
     st_deltaMin := st_deltaMin st; st_deltaMax := st_deltaMax st;
     st_creditMin := st_creditMin st; st_creditMax := st_creditMax st;
     st_bandWindow := st_bandWindow st;
     st_numExpirations := st_numExpirations st;
     st_showNeighbors := st_showNeighbors st;
     records := records st; loading := loading st; error := e;
     lastUpdated := lastUpdated st; lastQuery := lastQuery st |}.

Definition set_records (rs : list RollingResponse) (st : AppState) : AppState :=
  {| st_ticker := st_ticker st; st_expiration := st_expiration st;
     st_deltaMin := st_deltaMin st; st_deltaMax := st_deltaMax st;
     st_creditMin := st_creditMin st; st_creditMax := st_creditMax st;
     st_bandWindow := st_bandWindow st;
     st_numExpirations := st_numExpirations st;
     st_showNeighbors := st_showNeighbors st;
     records := rs; loading := loading st; error := error st;
     lastUpdated := lastUpdated st; lastQuery := lastQuery st |}.

Definition set_lastUpdated (t : option Z) (st : AppState) : AppState :=
  {| st_ticker := st_ticker st; st_expiration := st_expiration st;
     st_deltaMin := st_deltaMin st; st_deltaMax := st_deltaMax st;
     st_creditMin := st_creditMin st; st_creditMax := st_creditMax st;
     st_bandWindow := st_bandWindow st;
     st_numExpirations := st_numExpirations st;
     st_showNeighbors := st_showNeighbors st;
     records := records st; loading := loading st; error := error st;
     lastUpdated := t; lastQuery := lastQuery st |}.

Definition set_lastQuery (q : option QueryParams) (st : AppState) : AppState :=
  {| st_ticker := st_ticker st; st_expiration := st_expiration st;
     st_deltaMin := st_deltaMin st; st_deltaMax := st_deltaMax st;
     st_creditMin := st_creditMin st; st_creditMax := st_creditMax st;
     st_bandWindow := st_bandWindow st;
     st_numExpirations := st_numExpirations st;
     st_showNeighbors := st_showNeighbors st;
     records := records st; loading := loading st; error := error st;
     lastUpdated := lastUpdated st; lastQuery := q |}.

(** The per-expiration promises of one call, settled, in the order of the
    expiration list. *)
Definition promises (effective : QueryParams) : list (Settled RollingResponse) :=
  map (fun '(i, expDate) => fetch_expiration effective i expDate)
      (indexed (buildExpirationList StringToNumber_other roundToDouble
                  (qp_expiration effective) (qp_numExpirations effective))).

(** [fetchAll(params)]: the component state once the call has run to its
    end ([try], then [catch] on a rejection, then [finally]).  The
    [console.error(e)] of the [catch] block leaves the state alone. *)
Definition fetchAll (params : option QueryParams) (st : AppState) : AppState :=
  let effective := effective_params params st in
  let st := set_lastQuery (Some effective) st in
  let st := set_loading true st in
  let st := set_error None st in
  let st :=
    match Promise_all (settleOrder world) (promises effective) with
    | Fulfilled results =>
        let st := set_records results st in
        set_lastUpdated (Some (now world)) st
    | Rejected e =>
        let st := set_error (Some match message e with
                                  | Some msg => msg
                                  | None => "Failed to fetch"
                                  end) st in
        set_records [] st
    end in
  set_loading false st.
End FetchAll.

(** ** What is drawn, and sample data *)

(** What the component draws from its state: nothing while [error] is a
    non-empty string, otherwise one main table and one incomplete list per
    record ([!error && records.length > 0 && records.map(...)]). *)
Definition error_shown (st : AppState) : bool :=
  match error st with
  | Some (String _ _) => true
  | _ => false
  end.

Definition rendered_tables (st : AppState)
  : list (list ClassifiedRow * list IncompleteRow) :=
  if error_shown st then []
  else map (fun data => (rowsWithScore data (st_showNeighbors st),
                         incompleteSorted data))
           (records st).

Definition initial_state : AppState :=
  {| st_ticker := "AAPL"; st_expiration := "2025-11-28";
     st_deltaMin := (1 # 10)%Q; st_deltaMax := (3 # 10)%Q;
     st_creditMin := (7 # 1000)%Q; st_creditMax := (2 # 100)%Q;
     st_bandWindow := 1%Q; st_numExpirations := 1%Z; st_showNeighbors := true;
     records := []; loading := false; error := None;
     lastUpdated := None; lastQuery := None |}.

(** Rows and responses for the examples below. *)
Definition sample_row (name : string) (strike credit : number) (kind : RowType)
  : OpportunityRow :=
  {| base_fields :=
       {| option_ticker := name; strike_price := strike; last := None;
          bid := None; ask := None; put_mid := None; delta := None; iv := None;
          greeks_source := None; volume := None; open_interest := None;
          distance_to_lower_band := None; credit_pct := Some credit |};
     meets_band := true; meets_delta := true; meets_credit := true;
     type := kind |}.

Definition sample_response (opps neighs : list OpportunityRow)
    (inc : list IncompleteRow) : RollingResponse :=
  {| status := "ok"; ticker := "AAPL"; expiration_date := "2025-11-28";
     atm_strike := 100%Q; em := 5%Q; spot_approx := 100%Q; lower_band := 95%Q;
     delta_range := ((1 # 10)%Q, (3 # 10)%Q);
     credit_pct_range := ((7 # 1000)%Q, (2 # 100)%Q);
     count := 0%Q; opportunities := opps; neighbors := neighs; incomplete := inc |}.

(** A backend that answers the base expiration of the sample query and
    fails, with status 500, on every other date. *)
Definition sample_ok_response : Response :=
  {| ok := true; http_status := 200%Z;
     json := Fulfilled
               (sample_response
                  [sample_row "P95" 95%Q (9 # 1000)%Q type_opportunity] [] []) |}.

Definition sample_failing_response : Response :=
  {| ok := false; http_status := 500%Z;
     json := Rejected {| message := Some "Unexpected token" |} |}.

Definition sample_fetch (i : nat) (rq : Request) : Settled Response :=
  if String.eqb (rq_expiration_date rq) "2025-11-28"
  then Fulfilled sample_ok_response
  else Fulfilled sample_failing_response.

Definition sample_world (order : list nat) (clock : Z) : World :=
  {| fetch := sample_fetch; settleOrder := order; now := clock |}.

Definition sample_query (n : Z) : QueryParams :=
  {| qp_ticker := "AAPL"; qp_expiration := "2025-11-28";
     qp_deltaMin := (1 # 10)%Q; qp_deltaMax := (3 # 10)%Q;
     qp_bandWindow := 1%Q;
     qp_creditMin := (7 # 1000)%Q; qp_creditMax := (2 # 100)%Q;
     qp_showNeighbors := true; qp_numExpirations := n |}.

(** Stand-ins for the two open pieces of number conversion, for examples
    whose strings are plain digits and never reach them. *)
Definition no_other_literal (s : string) : jsnum := NaN.
Definition no_rounding (x : number) : jsnum := NaN.

(** ** Control panel: limits, handlers and profiles

    The number literals of the source are doubles; each constant below is
    the exact value of the double its literal denotes (a whole number over a
    power of two), so that comparing and clamping on rationals decides what
    the same operations decide on the doubles. *)

Definition DELTA_MAX_MIN : number := (3602879701896397 # 2 ^ 55)%Q.   (* 0.1 *)
Definition DELTA_MAX_MAX : number := (1 # 2)%Q.                        (* 0.5 *)
Definition CREDIT_MIN_MIN : number := (3458764513820541 # 2 ^ 60)%Q.  (* 0.003 *)
Definition CREDIT_MIN_MAX : number := (5764607523034235 # 2 ^ 58)%Q.  (* 0.02 *)
Definition BAND_MIN : number := 1%Q.
Definition BAND_MAX : number := 10%Q.

(** The literals of [applyProfile] and of the [useState] defaults. *)
Definition lit_0_25 : number := (1 # 4)%Q.
Definition lit_0_3 : number := (5404319552844595 # 2 ^ 54)%Q.
Definition lit_0_35 : number := (3152519739159347 # 2 ^ 53)%Q.
Definition lit_0_006 : number := (3458764513820541 # 2 ^ 59)%Q.
Definition lit_0_007 : number := (8070450532247929 # 2 ^ 60)%Q.

Inductive Profile : Type :=
  | Conservative
  | Normal
  | Aggressive
  | Custom.

(** [Number.isNaN(x)] *)
Definition isNaN (x : jsnum) : bool :=
  match x with
  | NaN => true
  | _ => false
  end.

(** [a < b] on numbers: false as soon as one side is NaN. *)
Definition js_lt (a b : jsnum) : bool :=
  match a, b with
  | NaN, _ | _, NaN => false
  | _, NegInfinity => false
  | NegInfinity, _ => true
  | PosInfinity, _ => false
  | Finite _, PosInfinity => true
  | Finite x, Finite y => negb (Qle_bool y x)
  end.

(** [Math.max(a, b)] and [Math.min(a, b)] on any two numbers. *)
Definition Math_max2 (a b : jsnum) : jsnum :=
  match a, b with
  | NaN, _ | _, NaN => NaN
  | _, _ => if js_lt a b then b else a
  end.

Definition Math_min2 (a b : jsnum) : jsnum :=
  match a, b with
  | NaN, _ | _, NaN => NaN
  | _, _ => if js_lt b a then b else a
  end.

(** [Math.round(x)]: the nearest integer, a tie going up. *)
Definition Math_round (x : jsnum) : jsnum :=
  match x with
  | Finite q => Finite (inject_Z (Qfloor (q + (1 # 2))%Q))
  | other => other
  end.

(** The component state the control panel works on: the [useState] cells of
    [AppState] and the selected profile. *)
Record UiState : Type := {
  app : AppState;
  profile : Profile
}.

Definition with_controls (st : AppState)
    (dMin dMax cMin cMax band : number) (numExp : Z) : AppState :=
  {| st_ticker := st_ticker st; st_expiration := st_expiration st;
     st_deltaMin := dMin; st_deltaMax := dMax;
     st_creditMin := cMin; st_creditMax := cMax;
     st_bandWindow := band; st_numExpirations := numExp;
     st_showNeighbors := st_showNeighbors st;
     records := records st; loading := loading st; error := error st;
     lastUpdated := lastUpdated st; lastQuery := lastQuery st |}.

Definition set_deltaMin (x : number) (st : AppState) : AppState :=
  with_controls st x (st_deltaMax st) (st_creditMin st) (st_creditMax st)
    (st_bandWindow st) (st_numExpirations st).

Definition set_deltaMax (x : number) (st : AppState) : AppState :=
  with_controls st (st_deltaMin st) x (st_creditMin st) (st_creditMax st)
    (st_bandWindow st) (st_numExpirations st).

Definition set_creditMin (x : number) (st : AppState) : AppState :=
  with_controls st (st_deltaMin st) (st_deltaMax st) x (st_creditMax st)
    (st_bandWindow st) (st_numExpirations st).

Definition set_creditMax (x : number) (st : AppState) : AppState :=
  with_controls st (st_deltaMin st) (st_deltaMax st) (st_creditMin st) x
    (st_bandWindow st) (st_numExpirations st).

Definition set_bandWindow (x : number) (st : AppState) : AppState :=
  with_controls st (st_deltaMin st) (st_deltaMax st) (st_creditMin st)
    (st_creditMax st) x (st_numExpirations st).

Definition set_numExpirations (n : Z) (st : AppState) : AppState :=
  with_controls st (st_deltaMin st) (st_deltaMax st) (st_creditMin st)
    (st_creditMax st) (st_bandWindow st) n.

Definition set_text_inputs (tick expi : string) (shown : bool) (st : AppState)
  : AppState :=
  {| st_ticker := tick; st_expiration := expi;
     st_deltaMin := st_deltaMin st; st_deltaMax := st_deltaMax st;
     st_creditMin := st_creditMin st; st_creditMax := st_creditMax st;
     st_bandWindow := st_bandWindow st;
     st_numExpirations := st_numExpirations st;
     st_showNeighbors := shown;
     records := records st; loading := loading st; error := error st;
     lastUpdated := lastUpdated st; lastQuery := lastQuery st |}.

(** A clamped value lies between two finite bounds, so it is a finite
    number; the cell keeps its value in the cases that do not arise. *)
Definition finite_or (x : jsnum) (old : number) : number :=
  match x with
  | Finite q => q
  | _ => old
  end.

(** The same for a cell that holds an integer: a rounded and clamped value
    is integral. *)
Definition integer_or (x : jsnum) (old : Z) : Z :=
  match x with
  | Finite q => Qfloor q
  | _ => old
  end.

(** [markCustom] *)
Definition markCustom (u : UiState) : UiState :=
  {| app := app u; profile := Custom |}.

(** [handleDeltaMaxChange(val)] *)
Definition handleDeltaMaxChange (val : jsnum) (u : UiState) : UiState :=
  if isNaN val then u
  else
    let clamped := Math_max2 (Finite DELTA_MAX_MIN)
                             (Math_min2 (Finite DELTA_MAX_MAX) val) in
    let clamped := if js_lt clamped (Finite (st_deltaMin (app u)))
                   then Finite (st_deltaMin (app u)) else clamped in
    markCustom
      {| app := set_deltaMax (finite_or clamped (st_deltaMax (app u))) (app u);
         profile := profile u |}.

(** [handleCreditMinChange(val)] *)
Definition handleCreditMinChange (val : jsnum) (u : UiState) : UiState :=
  if isNaN val then u
  else
    let clamped := Math_max2 (Finite CREDIT_MIN_MIN)
                             (Math_min2 (Finite CREDIT_MIN_MAX) val) in
    markCustom
      {| app := set_creditMin (finite_or clamped (st_creditMin (app u))) (app u);
         profile := profile u |}.

(** [handleBandWindowChange(val)] *)
Definition handleBandWindowChange (val : jsnum) (u : UiState) : UiState :=
  if isNaN val then u
  else
    let clamped := Math_max2 (Finite BAND_MIN)
                             (Math_min2 (Finite BAND_MAX) (Math_round val)) in
    markCustom
      {| app := set_bandWindow (finite_or clamped (st_bandWindow (app u))) (app u);
         profile := profile u |}.

(** [handleNumExpChange(val)]: the profile is left alone. *)
Definition handleNumExpChange (val : jsnum) (u : UiState) : UiState :=
  if isNaN val then u
  else
    let clamped := Math_min2 (Finite 3%Q)
                             (Math_max2 (Finite 1%Q) (Math_round val)) in
    {| app := set_numExpirations
                (integer_or clamped (st_numExpirations (app u))) (app u);
       profile := profile u |}.

(** [applyProfile(p)] *)
Definition applyProfile (p : Profile) (u : UiState) : UiState :=
  let st := app u in
  let st := set_deltaMin DELTA_MAX_MIN st in
  let st := set_creditMax CREDIT_MIN_MAX st in
  let st := set_bandWindow 1%Q st in
  let st :=
    match p with
    | Conservative => set_creditMin lit_0_006 (set_deltaMax lit_0_25 st)
    | Aggressive => set_creditMin lit_0_007 (set_deltaMax lit_0_35 st)
    | _ => set_creditMin lit_0_007 (set_deltaMax lit_0_3 st)
    end in
  {| app := st; profile := p |}.

(** [handleFactoryReset] *)
Definition handleFactoryReset (u : UiState) : UiState := applyProfile Normal u.

(** The parameters [handleLoadClick] passes to [fetchAll]. *)
Definition current_params (st : AppState) : QueryParams :=
  {| qp_ticker := st_ticker st;
     qp_expiration := st_expiration st;
     qp_deltaMin := st_deltaMin st;
     qp_deltaMax := st_deltaMax st;
     qp_bandWindow := st_bandWindow st;
     qp_creditMin := st_creditMin st;
     qp_creditMax := st_creditMax st;
     qp_showNeighbors := st_showNeighbors st;
     qp_numExpirations := st_numExpirations st |}.

(** The component as it mounts: the [useState] defaults. *)
Definition mounted : UiState :=
  {| app :=
       {| st_ticker := "AAPL"; st_expiration := "2025-11-28";
          st_deltaMin := DELTA_MAX_MIN; st_deltaMax := lit_0_3;
          st_creditMin := lit_0_007; st_creditMax := CREDIT_MIN_MAX;
          st_bandWindow := 1%Q; st_numExpirations := 1%Z;
          st_showNeighbors := true;
          records := []; loading := false; error := None;
          lastUpdated := None; lastQuery := None |};
     profile := Normal |}.

(** What the user and the timer can do to the state: edit a text field or
    a check box, move a slider or type a number ([val] is what [parseFloat]
    made of the field), pick a profile, reset, load, and the refresh the
    timer fires ([fetchAll()] with no argument).  A fetch runs in the world
    of its moment. *)
Inductive Event : Type :=
  | TickerInput (upper : string)
  | ExpirationInput (s : string)
  | ShowNeighborsInput (checked : bool)
  | DeltaMaxInput (val : jsnum)
  | CreditMinInput (val : jsnum)
  | BandWindowInput (val : jsnum)
  | NumExpInput (val : jsnum)
  | ProfileClick (p : Profile)
  | FactoryResetClick
  | LoadClick (w : World)
  | AutoRefresh (w : World).

Definition is_fetch (ev : Event) : bool :=
  match ev with
  | LoadClick _ | AutoRefresh _ => true
  | _ => false
  end.

Section Handlers.
Variable StringToNumber_other : string -> jsnum.
Variable roundToDouble : number -> jsnum.

(** [handleLoadClick] *)
Definition handleLoadClick (w : World) (st : AppState) : AppState :=
  fetchAll StringToNumber_other roundToDouble w (Some (current_params st)) st.

Definition handle (u : UiState) (ev : Event) : UiState :=
  match ev with
  | TickerInput upper =>
      {| app := set_text_inputs upper (st_expiration (app u))
                  (st_showNeighbors (app u)) (app u);
         profile := profile u |}
  | ExpirationInput s =>
      {| app := set_text_inputs (st_ticker (app u)) s
                  (st_showNeighbors (app u)) (app u);
         profile := profile u |}
  | ShowNeighborsInput checked =>
      {| app := set_text_inputs (st_ticker (app u)) (st_expiration (app u))
                  checked (app u);
         profile := profile u |}
  | DeltaMaxInput val => handleDeltaMaxChange val u
  | CreditMinInput val => handleCreditMinChange val u
  | BandWindowInput val => handleBandWindowChange val u
  | NumExpInput val => handleNumExpChange val u
  | ProfileClick p => applyProfile p u
  | FactoryResetClick => handleFactoryReset u
  | LoadClick w =>
      {| app := handleLoadClick w (app u); profile := profile u |}
  | AutoRefresh w =>
      {| app := fetchAll StringToNumber_other roundToDouble w None (app u);
         profile := profile u |}
  end.

(** The state after a sequence of events. *)
Definition run (u : UiState) (evs : list Event) : UiState :=
  fold_left handle evs u.
End Handlers.

(** The filters are in range: what every reachable state satisfies. *)
Definition controls_in_range (st : AppState) : Prop :=
  st_deltaMin st = DELTA_MAX_MIN /\
  (DELTA_MAX_MIN <= st_deltaMax st <= DELTA_MAX_MAX)%Q /\
  (CREDIT_MIN_MIN <= st_creditMin st <= CREDIT_MIN_MAX)%Q /\
  st_creditMax st = CREDIT_MIN_MAX /\
  (exists k : Z, (1 <= k <= 10)%Z /\ st_bandWindow st = inject_Z k) /\
  (1 <= st_numExpirations st <= 3)%Z.

(** ** The auto-refresh countdown *)

Definition REFRESH_INTERVAL_MS : Z := 10000.

(** The updater the interval passes to [setCountdown]: the next value of
    the countdown, and whether it calls [fetchAll()]. *)
Definition countdown_tick (prev : option Z) : option Z * bool :=
  match prev with
  | None => (None, false)
  | Some p =>
      if (p <=? 1)%Z then (Some (REFRESH_INTERVAL_MS / 1000)%Z, true)
      else (Some (p - 1)%Z, false)
  end.

(** [n] ticks of the interval: the countdown reached and the number of
    refreshes fired on the way. *)
Fixpoint ticks (n : nat) (prev : option Z) : option Z * nat :=
  match n with
  | O => (prev, O)
  | S n' =>
      let '(next, fired) := countdown_tick prev in
      let '(final, count) := ticks n' next in
      (final, ((if fired then 1 else 0) + count)%nat)
  end.

(** ** The provider label *)

Definition ascii_lower (c : ascii) : ascii :=
  let n := nat_of_ascii c in
  if ((65 <=? n) && (n <=? 90))%nat then ascii_of_nat (n + 32) else c.

(** [p.toLowerCase()], as far as the comparisons of [formatProviderLabel]
    can tell: the ASCII capitals are lowered and every other character is
    kept.  The four names compared against are ASCII without a [k], and
    apart from the ASCII capitals only the Kelvin sign has an ASCII letter
    ([k]) as its lower case, so the comparisons decide the same. *)
Fixpoint toLowerCase (s : string) : string :=
  match s with
  | EmptyString => EmptyString
  | String c s' => String (ascii_lower c) (toLowerCase s')
  end.

(** [formatProviderLabel(p)]: [!p] holds for [null] and for the empty
    string. *)
Definition formatProviderLabel (p : option string) : string :=
  match p with
  | None => "Unknown (check backend)"
  | Some EmptyString => "Unknown (check backend)"
  | Some p =>
      let v := toLowerCase p in
      if String.eqb v "tradier_sandbox" then "Tradier (sandbox / paper)"
      else if String.eqb v "tradier_production" then "Tradier (live)"
      else if String.eqb v "massive"
           then "Massive (options & greeks, snapshot/delayed)"
      else if String.eqb v "yahoo"
           then "Yahoo Finance (delayed / informational)"
      else p
  end.

(** ** What the Opportunities card shows *)






(** ** Number formatting *)

(** The digits of [x.toFixed(f)] for [0 <= x < 10^21] (ECMA-262,
    Number.prototype.toFixed, step 11): [n] is the integer for which
    [n / 10^f - x] is closest to zero, the larger one of two; its decimal
    numeral is padded with zeros to [f + 1] digits and the point is put
    before the last [f] of them. *)
Definition toFixed_digits (x : number) (f : nat) : string :=
  let n := Qfloor (x * inject_Z (10 ^ Z.of_nat f) + (1 # 2))%Q in
  let m := if (n =? 0)%Z then "0" else String_of (Some n) in
  match f with
  | O => m
  | _ =>
      let k := String.length m in
      let padded := (k <=? f)%nat in
      let m := if padded then (repeat_char "0" (f + 1 - k) ++ m)%string else m in
      let k := if padded then (f + 1)%nat else k in
      (substring 0 (k - f) m ++ "." ++ substring (k - f) f m)%string
  end.

Section Formatting.
(** [String(x)] for a number of magnitude 10^21 or more, which [toFixed]
    hands over to; left open. *)
Variable toString_large : number -> string.

(** [x.toFixed(f)], for [f] from 0 to 100 (the component passes 2). *)
Definition toFixed (x : jsnum) (f : nat) : string :=
  match x with
  | NaN => "NaN"
  | PosInfinity => "Infinity"
  | NegInfinity => "-Infinity"
  | Finite q =>
      let s := if Qle_bool 0 q then "" else "-" in
      let x := Qabs q in
      (s ++ (if Qle_bool (inject_Z (10 ^ 21)) x then toString_large x
             else toFixed_digits x f))%string
  end.

End Formatting.

(** * Properties *)

Local Close Scope Z_scope.
Local Open Scope Q_scope.

(** ** First-pass classification and score symbols *)

Lemma classifyRow_never_best (r : OpportunityRow) : classifyRow r <> best.
Proof.
  unfold classifyRow.
  destruct (RowType_eqb (type r) type_neighbor); [discriminate|].
  destruct (negb (meets_band r)); [discriminate|].
  destruct (meets_delta r && meets_credit r)%bool; [discriminate|].
  destruct (negb (Bool.eqb (meets_delta r) (meets_credit r))); discriminate.
Qed.

(** A row the first pass calls [opportunity] is a full match: of
    [opportunity] kind, inside the band, within the delta and credit ranges. *)
Lemma classifyRow_opportunity (r : OpportunityRow) :
  classifyRow r = opportunity <->
  type r = type_opportunity /\ meets_band r = true /\
  meets_delta r = true /\ meets_credit r = true.
Proof.
  unfold classifyRow.
  destruct (type r), (meets_band r), (meets_delta r), (meets_credit r);
    simpl; split; intros H; try discriminate; try tauto;
    decompose [and] H; discriminate.
Qed.

(** C2: the first pass sends every row of [neighbor] kind to [neighbor],
    whatever its three flags are, and also every row whose [meets_band] flag
    is false. *)
Theorem classifyRow_neighbor (r : OpportunityRow) :
  type r = type_neighbor \/ meets_band r = false ->
  classifyRow r = neighbor.
Proof.
  unfold classifyRow. intros [Hkind | Hband].
  - rewrite Hkind. reflexivity.
  - rewrite Hband. simpl. destruct (RowType_eqb (type r) type_neighbor); reflexivity.
Qed.

Lemma classifyRow_neighbor_example :
  let r := sample_row "P94" 94 (9 # 1000) type_neighbor in
  (type r = type_neighbor \/ meets_band r = false) /\ classifyRow r = neighbor.
Proof.
  intros r.
  assert (H : type r = type_neighbor \/ meets_band r = false)
    by (left; reflexivity).
  split; [exact H | exact (classifyRow_neighbor r H)].
Defined.

(** In the other copy a row of [neighbor] kind with all three flags set is
    [best]. *)
Remark Legacy_classifyRow_ignores_kind :
  Legacy.classifyRow (sample_row "P94" 94 (9 # 1000) type_neighbor) = Legacy.best.
Proof. reflexivity. Qed.

(** C3: a row of [opportunity] kind inside the band is [opportunity] when
    both [meets_delta] and [meets_credit] hold, [candidate_strong] when
    exactly one of them holds, and [candidate] when neither does. *)
Theorem classifyRow_in_band (r : OpportunityRow) :
  type r = type_opportunity ->
  meets_band r = true ->
  classifyRow r =
    if (meets_delta r && meets_credit r)%bool then opportunity
    else if xorb (meets_delta r) (meets_credit r) then candidate_strong
    else candidate.
Proof.
  unfold classifyRow. intros Hkind Hband. rewrite Hkind, Hband. simpl.
  destruct (meets_delta r), (meets_credit r); reflexivity.
Qed.

Lemma classifyRow_in_band_example :
  let r := {| base_fields := base_fields (sample_row "P96" 96 (5 # 1000) type_opportunity);
              meets_band := true; meets_delta := true; meets_credit := false;
              type := type_opportunity |} in
  type r = type_opportunity /\ meets_band r = true /\
  classifyRow r = candidate_strong.
Proof.
  intros r.
  assert (Hkind : type r = type_opportunity) by reflexivity.
  assert (Hband : meets_band r = true) by reflexivity.
  split; [exact Hkind|]. split; [exact Hband|].
  exact (classifyRow_in_band r Hkind Hband).
Defined.

(** The symbols of [scoreForClassification]: the star exactly for [best],
    the check mark exactly for [opportunity], nothing exactly for the three
    other classes. *)
Lemma scoreForClassification_symbols (c : Classification) :
  (scoreForClassification c = "★"%string <-> c = best) /\
  (scoreForClassification c = "✓"%string <-> c = opportunity) /\
  (scoreForClassification c = ""%string <->
     c = candidate_strong \/ c = candidate \/ c = neighbor).
Proof.
  destruct c; simpl; repeat split; intros H;
    try discriminate; try reflexivity; auto;
    decompose [or] H; discriminate.
Qed.

(** C4: every row of the table carries the score symbol of its final
    classification (the one it has after the promotion to [best]): the star
    exactly when the row is [best], the check mark exactly when it is
    [opportunity], and no symbol exactly when it is [candidate_strong],
    [candidate] or [neighbor]; and [scoreForClassification] assigns the
    symbols that way to every classification. *)
Theorem score_symbol_of_each_row (data : RollingResponse) (showNeighbors : bool) :
  Forall
    (fun o =>
       score o = scoreForClassification (classification o) /\
       (score o = "★"%string <-> classification o = best) /\
       (score o = "✓"%string <-> classification o = opportunity) /\
       (score o = ""%string <->
          classification o = candidate_strong \/ classification o = candidate \/
          classification o = neighbor))
    (rowsWithScore data showNeighbors) /\
  (forall c : Classification,
     (scoreForClassification c = "★"%string <-> c = best) /\
     (scoreForClassification c = "✓"%string <-> c = opportunity) /\
     (scoreForClassification c = ""%string <->
        c = candidate_strong \/ c = candidate \/ c = neighbor)).
Proof.
  split; [|exact scoreForClassification_symbols].
  apply Forall_forall. intros o Ho. unfold rowsWithScore in Ho.
  apply in_map_iff in Ho. destruct Ho as (p & <- & _).
  assert (Hscore : score (promote (maxCredit data showNeighbors) p)
                   = scoreForClassification
                       (classification (promote (maxCredit data showNeighbors) p)))
    by reflexivity.
  split; [exact Hscore|]. rewrite Hscore.
  apply scoreForClassification_symbols.
Qed.

(** A table with one row of each kind of symbol. *)
Example score_symbols_in_a_table :
  map (fun o => (classification o, score o))
      (rowsWithScore
         (sample_response
            [sample_row "P95" 95 (9 # 1000) type_opportunity;
             sample_row "P96" 96 (8 # 1000) type_opportunity]
            [sample_row "P94" 94 (9 # 1000) type_neighbor] [])
         true)
  = [(neighbor, ""); (best, "★"); (opportunity, "✓")]%string.
Proof. reflexivity. Qed.

(** ** Sorting by strike *)

Section SortByKey.
Context {A : Type}.
Variable key : A -> number.

Let cmp (a b : A) : number := key a - key b.
Let key_le (a b : A) : Prop := key a <= key b.

Lemma cmp_nonpos (a b : A) : Qle_bool (cmp a b) 0 = true <-> key a <= key b.
Proof.
  unfold cmp. rewrite Qle_bool_iff. split; intros H.
  - apply Qle_minus_iff. setoid_replace (key b + - key a) with (- (key a - key b)) by ring.
    apply (Qopp_le_compat (key a - key b) 0) in H. exact H.
  - apply Qle_minus_iff in H.
    setoid_replace (key a - key b) with (- (key b + - key a)) by ring.
    apply (Qopp_le_compat 0 (key b + - key a)) in H. exact H.
Qed.

Lemma sort_insert_perm (x : A) (l : list A) :
  Permutation (sort_insert cmp x l) (x :: l).
Proof.
  induction l as [|y l IH]; simpl.
  - apply Permutation_refl.
  - destruct (Qle_bool (cmp x y) 0).
    + apply Permutation_refl.
    + apply perm_trans with (y :: x :: l).
      * apply perm_skip. exact IH.
      * apply perm_swap.
Qed.

Lemma Array_sort_perm (l : list A) : Permutation (Array_sort cmp l) l.
Proof.
  induction l as [|x l IH]; simpl.
  - apply perm_nil.
  - apply perm_trans with (x :: Array_sort cmp l).
    + apply sort_insert_perm.
    + apply perm_skip. exact IH.
Qed.

Lemma sort_insert_sorted (x : A) (l : list A) :
  StronglySorted key_le l -> StronglySorted key_le (sort_insert cmp x l).
Proof.
  induction 1 as [|y l Hsorted IH Hall]; simpl.
  - constructor; constructor.
  - destruct (Qle_bool (cmp x y) 0) eqn:E.
    + apply cmp_nonpos in E.
      constructor; [constructor; assumption|].
      constructor; [exact E|].
      eapply Forall_impl; [|exact Hall].
      intros z Hz. unfold key_le in *. eapply Qle_trans; eassumption.
    + constructor; [exact IH|].
      assert (Hyx : key y <= key x).
      { destruct (Qlt_le_dec (key x) (key y)) as [Hlt|Hle]; [|exact Hle].
        apply Qlt_le_weak in Hlt. apply cmp_nonpos in Hlt. congruence. }
      eapply Permutation_Forall.
      * apply Permutation_sym. apply sort_insert_perm.
      * constructor; assumption.
Qed.

Lemma Array_sort_sorted (l : list A) : StronglySorted key_le (Array_sort cmp l).
Proof.
  induction l as [|x l IH]; simpl.
  - constructor.
  - apply sort_insert_sorted. exact IH.
Qed.
End SortByKey.

Lemma StronglySorted_map {A B : Type} (f : A -> B) (R : B -> B -> Prop) (l : list A) :
  StronglySorted (fun a b => R (f a) (f b)) l -> StronglySorted R (map f l).
Proof.
  induction 1 as [|x l Hsorted IH Hall]; simpl; constructor.
  - exact IH.
  - apply Forall_map. exact Hall.
Qed.

Lemma row_promote (maxc : option jsnum) (p : ClassifiedRow) :
  row (promote maxc p) = row p.
Proof. reflexivity. Qed.

Lemma rows_of_rowsWithScore (data : RollingResponse) (showNeighbors : bool) :
  map row (rowsWithScore data showNeighbors) = sorted data showNeighbors.
Proof.
  unfold rowsWithScore, prelim. rewrite !map_map. simpl. apply map_id.
Qed.

(** C8: for every response and either setting of [showNeighbors], the rows
    of the main table are the merged opportunities and neighbors in
    ascending order of strike, and the incomplete rows are the response's
    incomplete rows in ascending order of strike. *)
Theorem displayed_rows_ascending_by_strike
    (data : RollingResponse) (showNeighbors : bool) :
  StronglySorted ascending_by_strike (rowsWithScore data showNeighbors) /\
  Permutation (map row (rowsWithScore data showNeighbors))
              (baseRows data showNeighbors) /\
  StronglySorted incomplete_ascending_by_strike (incompleteSorted data) /\
  Permutation (incompleteSorted data) (incomplete data).
Proof.
  repeat split.
  - unfold rowsWithScore, prelim. rewrite map_map.
    apply StronglySorted_map. apply (Array_sort_sorted row_strike).
  - rewrite rows_of_rowsWithScore. apply (Array_sort_perm row_strike).
  - apply (Array_sort_sorted (fun r => strike_price (incomplete_fields r))).
  - apply (Array_sort_perm (fun r => strike_price (incomplete_fields r))).
Qed.

(** ** Promotion to [best] *)

Lemma fold_max_step (xs : list number) (h : number) :
  exists m, fold_left max_step xs (Finite h) = Finite m /\
            (m = h \/ In m xs) /\ h <= m /\ Forall (fun x => x <= m) xs.
Proof.
  revert h. induction xs as [|x xs IH]; intros h; simpl.
  - exists h. repeat split; auto. apply Qle_refl.
  - destruct (Qle_bool x h) eqn:E.
    + apply Qle_bool_iff in E.
      destruct (IH h) as (m & Hm & Hin & Hle & Hall).
      exists m. repeat split; auto.
      * destruct Hin; auto.
      * constructor; [eapply Qle_trans; eassumption | exact Hall].
    + assert (Hlt : h <= x).
      { destruct (Qlt_le_dec x h) as [Hlt|Hle]; [|exact Hle].
        apply Qlt_le_weak, Qle_bool_iff in Hlt. congruence. }
      destruct (IH x) as (m & Hm & Hin & Hle & Hall).
      exists m. repeat split; auto.
      * destruct Hin; auto.
      * eapply Qle_trans; eassumption.
Qed.

(** [Math.max] of at least one finite number is one of its arguments, and no
    argument exceeds it. *)
Lemma Math_max_spec (x : number) (xs : list number) :
  exists m, Math_max (x :: xs) = Finite m /\
            In m (x :: xs) /\ Forall (fun y => y <= m) (x :: xs).
Proof.
  unfold Math_max. simpl.
  destruct (fold_max_step xs x) as (m & Hm & Hin & Hle & Hall).
  exists m. repeat split; auto.
  destruct Hin; [left; congruence | right; assumption].
Qed.

Lemma is_full_match_iff (r : ClassifiedRow) :
  is_full_match r = true <->
  classification r = opportunity /\ exists c, row_credit (row r) = Some c.
Proof.
  unfold is_full_match. split.
  - intros H. apply andb_true_iff in H. destruct H as [Hc Hr]. split.
    + destruct (classification r); try discriminate; reflexivity.
    + destruct (row_credit (row r)) as [c|]; [exists c; reflexivity | discriminate].
  - intros [Hc [c Hr]]. rewrite Hc, Hr. reflexivity.
Qed.

Lemma prelim_classification (data : RollingResponse) (showNeighbors : bool)
    (p : ClassifiedRow) :
  In p (prelim data showNeighbors) -> classification p = classifyRow (row p).
Proof.
  unfold prelim. intros H. apply in_map_iff in H.
  destruct H as (r & <- & _). reflexivity.
Qed.

Lemma maxCredit_spec (data : RollingResponse) (showNeighbors : bool) :
  match maxCredit data showNeighbors with
  | None => fullMatches data showNeighbors = []
  | Some m =>
      exists mq q, m = Finite mq /\ In q (fullMatches data showNeighbors) /\
                   row_credit (row q) = Some mq /\
                   forall q' c', In q' (fullMatches data showNeighbors) ->
                                 row_credit (row q') = Some c' -> c' <= mq
  end.
Proof.
  unfold maxCredit.
  destruct (fullMatches data showNeighbors) as [|f fs] eqn:Efm; simpl; [reflexivity|].
  destruct (Math_max_spec (credit_or_zero f) (map credit_or_zero fs))
    as (m & Hm & Hin & Hall).
  change (credit_or_zero f :: map credit_or_zero fs)
    with (map credit_or_zero (f :: fs)) in *.
  apply in_map_iff in Hin. destruct Hin as (q & Hq & Hqin).
  assert (Hfull : forall r, In r (f :: fs) -> exists c,
             row_credit (row r) = Some c /\ credit_or_zero r = c).
  { intros r Hr. rewrite <- Efm in Hr. apply filter_In in Hr.
    destruct Hr as [_ Hr]. apply is_full_match_iff in Hr.
    destruct Hr as [_ [c Hc]]. exists c. split; [exact Hc|].
    unfold credit_or_zero. rewrite Hc. reflexivity. }
  exists m, q. split; [simpl in Hm; simpl; f_equal; exact Hm|].
  split; [exact Hqin|]. split.
  - destruct (Hfull q Hqin) as (c & Hc & Hc'). congruence.
  - intros q' c' Hq' Hc'. rewrite Forall_forall in Hall.
    apply (Hall c'). apply in_map_iff. exists q'. split; [|exact Hq'].
    destruct (Hfull q' Hq') as (c & Hc & Hcz). congruence.
Qed.

Lemma promote_best_iff (data : RollingResponse) (showNeighbors : bool)
    (p : ClassifiedRow) :
  In p (prelim data showNeighbors) ->
  (classification (promote (maxCredit data showNeighbors) p) = best <->
   maximal_full_match (prelim data showNeighbors) p).
Proof.
  intros Hp.
  assert (Hnb : classification p <> best).
  { rewrite (prelim_classification _ _ _ Hp). apply classifyRow_never_best. }
  pose proof (maxCredit_spec data showNeighbors) as Hmax.
  unfold promote, maximal_full_match. simpl.
  destruct (classification p) eqn:Ec; try (split; [intros H | intros [H _]]; congruence).
  destruct (row_credit (row p)) as [c|] eqn:Er.
  - assert (Hfm : In p (fullMatches data showNeighbors)).
    { apply filter_In. split; [exact Hp|]. apply is_full_match_iff. eauto. }
    destruct (maxCredit data showNeighbors) as [m|].
    + destruct Hmax as (mq & q & -> & Hq & Hqc & Hall). simpl.
      destruct (Qeq_bool c mq) eqn:E.
      * apply Qeq_bool_iff in E. split; [intros _ | reflexivity].
        split; [reflexivity|]. exists c. split; [reflexivity|].
        intros q' c' Hq' Hc' Hr'. rewrite E. apply (Hall q'); [|exact Hr'].
        apply filter_In. split; [exact Hq'|]. apply is_full_match_iff. eauto.
      * split; [discriminate|]. intros [_ (c0 & Hc0 & Hle)].
        injection Hc0 as <-.
        assert (Hmc : mq <= c).
        { apply (Hle q); [| |exact Hqc].
          - apply filter_In in Hq. tauto.
          - apply filter_In in Hq. destruct Hq as [_ Hq].
            apply is_full_match_iff in Hq. tauto. }
        assert (Hcm : c <= mq) by (apply (Hall p); assumption).
        assert (Heq : c == mq) by (apply Qle_antisym; assumption).
        apply Qeq_bool_iff in Heq. congruence.
    + rewrite Hmax in Hfm. destruct Hfm.
  - destruct (maxCredit data showNeighbors);
      (split; [discriminate | intros [_ (c & Hc & _)]; discriminate]).
Qed.

Lemma promote_keeps_or_best (maxc : option jsnum) (p : ClassifiedRow) :
  classification (promote maxc p) <> best ->
  classification (promote maxc p) = classification p.
Proof.
  unfold promote. simpl.
  destruct (classification p); try reflexivity.
  destruct maxc as [m|]; try reflexivity.
  destruct (row_credit (row p)); try reflexivity.
  destruct (strict_eq n m); [congruence | reflexivity].
Qed.

Lemma Forall2_map_self {A B : Type} (f : A -> B) (P : A -> B -> Prop) (l : list A) :
  (forall x, In x l -> P x (f x)) -> Forall2 P l (map f l).
Proof.
  induction l as [|x l IH]; intros H; simpl; constructor.
  - apply H. left. reflexivity.
  - apply IH. intros y Hy. apply H. right. exact Hy.
Qed.

(** C1: in one expiration's pipeline, position by position between the
    first-pass rows and the final rows: the final row carries the same
    option row; it is [best] exactly when the first pass called it
    [opportunity] and its credit is the greatest credit among the rows the
    first pass called [opportunity] (so every row tied at the maximum is
    [best]); a row that is not promoted keeps its first-pass classification.
    Hence no row is [best] when no row is [opportunity], and every [best]
    row is a full match. *)
Theorem best_is_maximal_credit_full_match
    (data : RollingResponse) (showNeighbors : bool) :
  Forall2
    (fun p o =>
       row o = row p /\
       (classification o = best <->
        maximal_full_match (prelim data showNeighbors) p) /\
       (classification o <> best -> classification o = classification p))
    (prelim data showNeighbors) (rowsWithScore data showNeighbors) /\
  ((forall p, In p (prelim data showNeighbors) -> classification p <> opportunity) ->
   forall o, In o (rowsWithScore data showNeighbors) -> classification o <> best) /\
  (forall o, In o (rowsWithScore data showNeighbors) ->
     classification o = best ->
     type (row o) = type_opportunity /\ meets_band (row o) = true /\
     meets_delta (row o) = true /\ meets_credit (row o) = true).
Proof.
  split; [|split].
  - unfold rowsWithScore. apply Forall2_map_self. intros p Hp.
    split; [reflexivity|]. split.
    + apply promote_best_iff. exact Hp.
    + apply promote_keeps_or_best.
  - intros Hnone o Ho Hbest. unfold rowsWithScore in Ho.
    apply in_map_iff in Ho. destruct Ho as (p & <- & Hp).
    apply promote_best_iff in Hbest; [|exact Hp].
    destruct Hbest as [Hopp _]. exact (Hnone p Hp Hopp).
  - intros o Ho Hbest. unfold rowsWithScore in Ho.
    apply in_map_iff in Ho. destruct Ho as (p & <- & Hp).
    apply promote_best_iff in Hbest; [|exact Hp].
    destruct Hbest as [Hopp _]. rewrite row_promote.
    apply classifyRow_opportunity.
    rewrite <- (prelim_classification _ _ _ Hp). exact Hopp.
Qed.

(** Two full matches tied at the greatest credit are both promoted. *)
Example tied_rows_are_both_best :
  map (fun o => (option_ticker (base_fields (row o)), classification o, score o))
      (rowsWithScore
         (sample_response
            [sample_row "P97" 97 (8 # 1000) type_opportunity;
             sample_row "P95" 95 (9 # 1000) type_opportunity;
             sample_row "P96" 96 (18 # 2000) type_opportunity]
            [sample_row "P94" 94 (9 # 1000) type_neighbor] [])
         true)
  = [("P94", neighbor, ""); ("P95", best, "★"); ("P96", best, "★");
     ("P97", opportunity, "✓")]%string.
Proof. reflexivity. Qed.

(** ** The display stage without full matches, and on an empty chain *)

Lemma promote_without_max (p : ClassifiedRow) :
  classification (promote None p) = classification p.
Proof. unfold promote. simpl. destruct (classification p); reflexivity. Qed.

Lemma length_Array_sort {A : Type} (cmp : A -> A -> number) (l : list A) :
  List.length (Array_sort cmp l) = List.length l.
Proof.
  assert (Hins : forall x l', List.length (sort_insert cmp x l') = S (List.length l')).
  { intros x l'. induction l' as [|y l' IH]; simpl; [reflexivity|].
    destruct (Qle_bool (cmp x y) 0); simpl; [reflexivity | rewrite IH; reflexivity]. }
  induction l as [|x l IH]; simpl; [reflexivity|].
  rewrite Hins, IH. reflexivity.
Qed.

(** C7: the display stage is a total function of the response: every
    response, the empty one included, gets a table with one row per merged
    input row and an incomplete list with one row per incomplete row, both
    lists and never absent, so empty inputs give empty lists.  When no row
    is a full match, [maxCredit] is [null] ([Math.max] is not reached), no
    classification changes and no row is [best]. *)
Theorem display_stage_total (data : RollingResponse) (showNeighbors : bool) :
  List.length (rowsWithScore data showNeighbors)
    = List.length (baseRows data showNeighbors) /\
  List.length (incompleteSorted data) = List.length (incomplete data) /\
  (baseRows data showNeighbors = [] ->
     rowsWithScore data showNeighbors = [] /\ hasRows data showNeighbors = false) /\
  (incomplete data = [] ->
     incompleteSorted data = [] /\ hasIncomplete data = false) /\
  (fullMatches data showNeighbors = [] ->
     maxCredit data showNeighbors = None /\
     map classification (rowsWithScore data showNeighbors)
       = map classification (prelim data showNeighbors) /\
     forall o, In o (rowsWithScore data showNeighbors) -> classification o <> best).
Proof.
  split; [|split; [|split; [|split]]].
  - unfold rowsWithScore, prelim, sorted.
    rewrite !length_map. apply length_Array_sort.
  - apply length_Array_sort.
  - intros Hbase. unfold hasRows, rowsWithScore, prelim, sorted.
    rewrite Hbase. split; reflexivity.
  - intros Hinc. unfold hasIncomplete, incompleteSorted. rewrite Hinc.
    split; reflexivity.
  - intros Hfm.
    assert (Hmax : maxCredit data showNeighbors = None).
    { unfold maxCredit. rewrite Hfm. reflexivity. }
    split; [exact Hmax|]. split.
    + unfold rowsWithScore. rewrite Hmax, map_map. apply map_ext.
      apply promote_without_max.
    + intros o Ho Hbest. unfold rowsWithScore in Ho. rewrite Hmax in Ho.
      apply in_map_iff in Ho. destruct Ho as (p & <- & Hp).
      rewrite promote_without_max in Hbest.
      rewrite (prelim_classification _ _ _ Hp) in Hbest.
      exact (classifyRow_never_best _ Hbest).
Qed.

(** The empty chain, and a chain of near misses only. *)
Example display_stage_on_empty_chain :
  let data := sample_response [] [] [] in
  fullMatches data true = [] /\
  maxCredit data true = None /\
  rowsWithScore data true = [] /\
  incompleteSorted data = [].
Proof. repeat split. Qed.

Example display_stage_on_neighbors_only :
  let data := sample_response [] [sample_row "P94" 94 (9 # 1000) type_neighbor] [] in
  maxCredit data true = None /\
  map classification (rowsWithScore data true) = [neighbor].
Proof. repeat split. Qed.

(** ** The batch fetch is all-or-nothing *)

Lemma all_fulfilled_rejected {A : Type} (ps : list (Settled A)) (e : JsError) :
  In (Rejected e) ps -> all_fulfilled ps = None.
Proof.
  induction ps as [|p ps IH]; intros H; [destruct H|].
  destruct H as [-> | H]; [reflexivity|].
  simpl. destruct p; [|reflexivity]. rewrite (IH H). reflexivity.
Qed.

Lemma first_some_in {A : Type} (l : list (option A)) (a : A) :
  In (Some a) l -> exists b, first_some l = Some b.
Proof.
  induction l as [|[y|] l IH]; simpl; intros H.
  - destruct H.
  - eauto.
  - destruct H as [H|H]; [discriminate | auto].
Qed.

Lemma first_some_app_r {A : Type} (l1 l2 : list (option A)) (a : A) :
  In (Some a) l2 -> exists b, first_some (l1 ++ l2) = Some b.
Proof.
  intros H. apply (first_some_in _ a). apply in_or_app. right. exact H.
Qed.

Lemma Promise_all_rejects {A : Type} (order : list nat) (ps : list (Settled A))
    (e : JsError) :
  In (Rejected e) ps -> exists e', Promise_all order ps = Rejected e'.
Proof.
  intros H. unfold Promise_all. rewrite (all_fulfilled_rejected ps e H).
  match goal with |- context [first_some (?l1 ++ ?l2)] =>
    destruct (first_some_app_r l1 l2 e) as [b Hb] end.
  - apply in_map_iff. exists (Rejected e). split; [reflexivity | exact H].
  - rewrite Hb. eauto.
Qed.

(** C6: when the promise of any one expiration date is rejected (a network
    failure, a response that is not [ok], or a body that is not JSON),
    [fetchAll] ends with an empty record list and an error message, whatever
    the other dates returned and in whatever order the promises settled;
    [lastUpdated] is left as it was. *)
Theorem fetchAll_all_or_nothing
    (StringToNumber_other : string -> jsnum) (roundToDouble : number -> jsnum)
    (world : World) (params : option QueryParams) (st : AppState) (e : JsError) :
  In (Rejected e)
     (promises StringToNumber_other roundToDouble world
        (effective_params params st)) ->
  let st' := fetchAll StringToNumber_other roundToDouble world params st in
  records st' = [] /\
  (exists msg, error st' = Some msg) /\
  loading st' = false /\
  lastUpdated st' = lastUpdated st.
Proof.
  intros H st'. subst st'. unfold fetchAll.
  destruct (Promise_all_rejects (settleOrder world) _ e H) as [e' He'].
  rewrite He'. simpl. repeat split. eauto.
Qed.

(** The base expiration is fetched, the next one fails with status 500: no
    record is kept. *)
Lemma fetchAll_all_or_nothing_example :
  let w := sample_world [0; 1]%nat 1764288000000%Z in
  let st' := fetchAll no_other_literal no_rounding w
               (Some (sample_query 2)) initial_state in
  promises no_other_literal no_rounding w (sample_query 2)
  = [Fulfilled (sample_response
                  [sample_row "P95" 95 (9 # 1000) type_opportunity] [] []);
     Rejected {| message := Some "HTTP 500"%string |}] /\
  records st' = [] /\ error st' = Some "HTTP 500"%string /\
  loading st' = false /\ lastUpdated st' = None.
Proof.
  intros w st'.
  assert (Hps : promises no_other_literal no_rounding w (sample_query 2)
                = [Fulfilled (sample_response
                                [sample_row "P95" 95 (9 # 1000) type_opportunity]
                                [] []);
                   Rejected {| message := Some "HTTP 500"%string |}])
    by reflexivity.
  assert (Hin : In (Rejected {| message := Some "HTTP 500"%string |})
                   (promises no_other_literal no_rounding w
                      (effective_params (Some (sample_query 2)) initial_state)))
    by (right; left; reflexivity).
  destruct (fetchAll_all_or_nothing no_other_literal no_rounding w
              (Some (sample_query 2)) initial_state _ Hin)
    as (Hrec & _ & Hload & Hupd).
  split; [exact Hps|]. split; [exact Hrec|]. split; [reflexivity|].
  split; [exact Hload | exact Hupd].
Defined.

(** ** The calendar *)

Local Close Scope Q_scope.
Local Open Scope Z_scope.

Lemma DayFromYear_next (y : Z) :
  DayFromYear (y + 1) = DayFromYear y + DaysInYear y.
Proof.
  unfold DayFromYear, DaysInYear.
  destruct (Z.eqb_spec (y mod 4) 0); destruct (Z.eqb_spec (y mod 100) 0);
    destruct (Z.eqb_spec (y mod 400) 0); cbn [negb];
    Z.div_mod_to_equations; lia.
Qed.

Lemma DaysInYear_cases (y : Z) :
  (DaysInYear y = 365 /\ leap_day y = 0) \/ (DaysInYear y = 366 /\ leap_day y = 1).
Proof.
  unfold leap_day, DaysInYear.
  destruct (negb (y mod 4 =? 0)); [left; split; reflexivity|].
  destruct (negb (y mod 100 =? 0)); [right; split; reflexivity|].
  destruct (negb (y mod 400 =? 0)); [left|right]; split; reflexivity.
Qed.

Lemma DayFromYear_lt (a b : Z) : a < b -> DayFromYear a < DayFromYear b.
Proof.
  unfold DayFromYear. intros H. Z.div_mod_to_equations; lia.
Qed.

Lemma DayFromYear_lt_inv (a b : Z) : DayFromYear a < DayFromYear b -> a < b.
Proof.
  intros H. destruct (Z_lt_le_dec a b) as [Hlt|Hle]; [exact Hlt|].
  destruct (Z.eq_dec a b) as [->|Hne]; [lia|].
  assert (Hba : b < a) by lia. apply DayFromYear_lt in Hba. lia.
Qed.

(** The day a year starts on stays within two days of the mean-year
    estimate. *)
Lemma DayFromYear_estimate (y : Z) :
  146097 * (y - 1970) - 398 <= 400 * DayFromYear y <= 146097 * (y - 1970) + 481.
Proof.
  unfold DayFromYear. Z.div_mod_to_equations; lia.
Qed.

Lemma YearFromDay_bounds (day : Z) :
  DayFromYear (YearFromDay day) <= day < DayFromYear (YearFromDay day + 1).
Proof.
  unfold YearFromDay.
  set (y0 := 1970 + day * 400 / 146097).
  assert (Hy0 : 146097 * (y0 - 1970) <= 400 * day
                < 146097 * (y0 - 1970) + 146097).
  { subst y0. Z.div_mod_to_equations; lia. }
  pose proof (DayFromYear_estimate (y0 - 1)) as E1.
  pose proof (DayFromYear_estimate (y0 + 2)) as E2.
  destruct (Z.leb_spec (DayFromYear (y0 + 1)) day) as [H1|H1].
  - replace (y0 + 1 + 1) with (y0 + 2) by lia. lia.
  - destruct (Z.leb_spec (DayFromYear y0) day) as [H0|H0].
    + lia.
    + replace (y0 - 1 + 1) with y0 by lia. lia.
Qed.

Lemma YearFromDay_unique (day y : Z) :
  DayFromYear y <= day < DayFromYear (y + 1) -> YearFromDay day = y.
Proof.
  intros H. pose proof (YearFromDay_bounds day) as B.
  assert (H1 : y < YearFromDay day + 1) by (apply DayFromYear_lt_inv; lia).
  assert (H2 : YearFromDay day < y + 1) by (apply DayFromYear_lt_inv; lia).
  lia.
Qed.

Lemma Day_of_time (day tod : Z) :
  0 <= tod < msPerDay ->
  Day (day * msPerDay + tod) = day /\ TimeWithinDay (day * msPerDay + tod) = tod.
Proof.
  unfold Day, TimeWithinDay, msPerDay. intros H. Z.div_mod_to_equations; lia.
Qed.

(** [YearFromTime] is the function of the standard: the largest year that
    starts at or before [t]. *)
Lemma YearFromTime_largest (t : Z) :
  TimeFromYear (YearFromTime t) <= t /\
  forall y, TimeFromYear y <= t -> y <= YearFromTime t.
Proof.
  unfold TimeFromYear, YearFromTime.
  pose proof (YearFromDay_bounds (Day t)) as [Hlo Hhi].
  assert (Hday : msPerDay * Day t <= t < msPerDay * Day t + msPerDay).
  { unfold Day, msPerDay. Z.div_mod_to_equations; lia. }
  assert (Hpos : 0 < msPerDay) by reflexivity.
  split.
  - nia.
  - intros y Hy.
    assert (Hyd : DayFromYear y <= Day t) by nia.
    assert (y < YearFromDay (Day t) + 1) by (apply DayFromYear_lt_inv; lia).
    lia.
Qed.

Ltac month_cases m :=
  let H := fresh "Hm" in
  assert (H : m = 1 \/ m = 2 \/ m = 3 \/ m = 4 \/ m = 5 \/ m = 6 \/
              m = 7 \/ m = 8 \/ m = 9 \/ m = 10 \/ m = 11 \/ m = 12) by lia;
  decompose [or] H; clear H; subst m.

Ltac closed_month :=
  repeat match goal with
         | |- context [?k - 1] =>
             match k with
             | Z.pos _ => let k' := eval compute in (k - 1) in change (k - 1) with k'
             end
         end;
  cbv beta iota delta [MonthStartDay].

Ltac decide_ltb :=
  repeat (first [ rewrite (proj2 (Z.ltb_lt _ _)) by lia
                | rewrite (proj2 (Z.ltb_ge _ _)) by lia ];
          cbv beta iota).

Lemma day_number_in_year (y m d : Z) :
  valid_date y m d ->
  DayFromYear y <= day_number (y, m, d) < DayFromYear (y + 1).
Proof.
  intros [Hm Hd]. rewrite DayFromYear_next. unfold day_number.
  destruct (DaysInYear_cases y) as [[Hy Hl]|[Hy Hl]]; rewrite Hy;
    month_cases m; cbv beta iota delta [DaysInMonth] in Hd; rewrite Hl in *;
    closed_month; lia.
Qed.

Lemma civil_of_time (y m d tod : Z) :
  valid_date y m d -> 0 <= tod < msPerDay ->
  let t := day_number (y, m, d) * msPerDay + tod in
  YearFromTime t = y /\ MonthFromTime t = m - 1 /\ DateFromTime t = d.
Proof.
  intros Hv Htod t.
  destruct (Day_of_time (day_number (y, m, d)) tod Htod) as [Hday _].
  fold t in Hday.
  assert (Hyear : YearFromTime t = y).
  { unfold YearFromTime. rewrite Hday. apply YearFromDay_unique.
    apply day_number_in_year. exact Hv. }
  assert (Hleap : InLeapYear t = leap_day y).
  { unfold InLeapYear. rewrite Hyear. reflexivity. }
  assert (Hwithin : DayWithinYear t = MonthStartDay (m - 1) (leap_day y) + d - 1).
  { unfold DayWithinYear. rewrite Hday, Hyear. unfold day_number. lia. }
  split; [exact Hyear|].
  destruct Hv as [Hm Hd].
  assert (Hmonth : MonthFromTime t = m - 1).
  { unfold MonthFromTime. rewrite Hwithin, Hleap.
    destruct (DaysInYear_cases y) as [[_ Hl]|[_ Hl]]; rewrite Hl in *;
      month_cases m; cbv beta iota delta [DaysInMonth] in Hd;
      closed_month; decide_ltb; reflexivity. }
  split; [exact Hmonth|].
  unfold DateFromTime. rewrite Hmonth, Hwithin, Hleap.
  destruct (DaysInYear_cases y) as [[_ Hl]|[_ Hl]]; rewrite Hl in *;
    month_cases m; closed_month; lia.
Qed.

(** ** Decimal strings *)

Lemma split_no_dash (s : string) : no_dash s = true -> split "-" s = [s].
Proof.
  induction s as [|c s IH]; simpl; intros H; [reflexivity|].
  apply andb_true_iff in H. destruct H as [Hc Hs].
  apply negb_true_iff in Hc. rewrite Hc, (IH Hs). reflexivity.
Qed.

Lemma split_app_dash (s rest : string) :
  no_dash s = true ->
  split "-" (s ++ String "-" rest) = s :: split "-" rest.
Proof.
  induction s as [|c s IH]; simpl; intros H; [reflexivity|].
  apply andb_true_iff in H. destruct H as [Hc Hs].
  apply negb_true_iff in Hc. rewrite Hc, (IH Hs). reflexivity.
Qed.

Lemma no_dash_app (s1 s2 : string) :
  no_dash (s1 ++ s2) = no_dash s1 && no_dash s2.
Proof.
  induction s1 as [|c s1 IH]; simpl; [reflexivity|].
  rewrite IH. apply andb_assoc.
Qed.

Lemma no_dash_repeat_zero (n : nat) : no_dash (repeat_char "0" n) = true.
Proof. induction n; simpl; auto. Qed.

Lemma no_dash_uint (u : Decimal.uint) : no_dash (NilEmpty.string_of_uint u) = true.
Proof. induction u; simpl; auto. Qed.

Lemma String_of_nonneg (z : Z) :
  0 <= z ->
  exists u, String_of (Some z) = NilEmpty.string_of_uint u /\
            Z.of_N (N.of_uint u) = z.
Proof.
  intros Hz. unfold String_of. destruct z as [|p|p]; [| |lia].
  - exists (Decimal.D0 Decimal.Nil). split; reflexivity.
  - exists (Pos.to_uint p). split.
    + simpl. unfold NilZero.string_of_uint.
      pose proof (DecimalPos.Unsigned.to_uint_nonnil p) as Hnn.
      destruct (Pos.to_uint p); [congruence|reflexivity..].
    + unfold N.of_uint. rewrite DecimalPos.Unsigned.of_to. reflexivity.
Qed.

Lemma no_dash_String_of (z : Z) : 0 <= z -> no_dash (String_of (Some z)) = true.
Proof.
  intros Hz. destruct (String_of_nonneg z Hz) as (u & -> & _). apply no_dash_uint.
Qed.

Lemma no_dash_padStart (n : nat) (z : Z) :
  0 <= z -> no_dash (padStart n "0" (String_of (Some z))) = true.
Proof.
  intros Hz. unfold padStart. rewrite no_dash_app, no_dash_repeat_zero.
  apply no_dash_String_of. exact Hz.
Qed.

Lemma uint_of_leading_zeros (n : nat) (s : string) (u : Decimal.uint) :
  NilEmpty.uint_of_string s = Some u ->
  exists u', NilEmpty.uint_of_string (repeat_char "0" n ++ s) = Some u' /\
             N.of_uint u' = N.of_uint u.
Proof.
  intros H. induction n as [|n (u' & Hu' & Hval)]; simpl.
  - exists u. split; [exact H | reflexivity].
  - rewrite Hu'. simpl. exists (Decimal.D0 u'). split; [reflexivity | exact Hval].
Qed.

Section NumberOfDecimal.
Variable StringToNumber_other : string -> jsnum.
Variable roundToDouble : number -> jsnum.

Lemma Number_padStart (n : nat) (z : Z) :
  0 <= z <= maxSafeInteger ->
  Number StringToNumber_other roundToDouble (padStart n "0" (String_of (Some z)))
  = Finite (inject_Z z).
Proof.
  intros Hz. destruct (String_of_nonneg z) as (u & Hs & Hval); [lia|].
  unfold padStart. rewrite Hs.
  destruct (uint_of_leading_zeros (n - String.length (NilEmpty.string_of_uint u))
              (NilEmpty.string_of_uint u) u (NilEmpty.usu u)) as (u' & Hu' & Hval').
  unfold Number. rewrite Hu', Hval', Hval.
  destruct (Z.leb_spec z maxSafeInteger); [reflexivity | lia].
Qed.

Lemma Number_String_of (z : Z) :
  0 <= z <= maxSafeInteger ->
  Number StringToNumber_other roundToDouble (String_of (Some z)) = Finite (inject_Z z).
Proof.
  intros Hz. apply (Number_padStart 0 z) in Hz. exact Hz.
Qed.
End NumberOfDecimal.

Lemma truthy_inject_Z (z : Z) : truthy (Finite (inject_Z z)) = negb (z =? 0).
Proof.
  unfold truthy, Qeq_bool, inject_Z. simpl. rewrite Z.mul_1_r. 
  destruct z; reflexivity.
Qed.

Lemma truncate_inject_Z (z : Z) : truncate (inject_Z z) = z.
Proof. unfold truncate, inject_Z. simpl. apply Z.quot_1_r. Qed.

(** ** Weekly expirations *)

Lemma next_day_spec (y m d : Z) :
  valid_date y m d ->
  let '(y', m', d') := next_day (y, m, d) in
  valid_date y' m' d' /\ day_number (y', m', d') = day_number (y, m, d) + 1.
Proof.
  intros [Hm Hd]. unfold next_day.
  destruct (Z.ltb_spec d (DaysInMonth y m)) as [Hlt|Hge].
  - split; [split; lia | unfold day_number; lia].
  - assert (Hlast : d = DaysInMonth y m) by lia. clear Hge Hd.
    destruct (Z.ltb_spec m 12) as [Hm12|Hm12].
    + destruct (DaysInYear_cases y) as [[_ Hl]|[_ Hl]];
        month_cases m; try lia;
        cbv beta iota delta [DaysInMonth] in Hlast; subst d;
        unfold valid_date, day_number; rewrite ?Hl;
        repeat match goal with
               | |- context [?k + 1] =>
                   match k with
                   | Z.pos _ => let k' := eval compute in (k + 1) in change (k + 1) with k'
                   end
               end;
        closed_month; cbv beta iota delta [DaysInMonth]; rewrite ?Hl; lia.
    + assert (m = 12) by lia. subst m.
      cbv beta iota delta [DaysInMonth] in Hlast. subst d.
      unfold valid_date, day_number. rewrite DayFromYear_next.
      change (1 - 1) with 0. change (12 - 1) with 11.
      cbv beta iota delta [MonthStartDay DaysInMonth].
      destruct (DaysInYear_cases y) as [[Hy Hl]|[Hy Hl]]; rewrite Hy, Hl; lia.
Qed.

Lemma add_days_spec (n : nat) (c : Z * Z * Z) :
  (let '(y, m, d) := c in valid_date y m d) ->
  (let '(y', m', d') := add_days n c in valid_date y' m' d') /\
  day_number (add_days n c) = day_number c + Z.of_nat n.
Proof.
  intros Hc. induction n as [|n [IHv IHd]].
  - simpl. split; [exact Hc | lia].
  - unfold add_days in *. simpl Nat.iter.
    destruct (Nat.iter n next_day c) as [[y m] d].
    pose proof (next_day_spec y m d IHv) as Hn.
    destruct (next_day (y, m, d)) as [[y' m'] d'].
    destruct Hn as [Hv Hd]. split; [exact Hv | lia].
Qed.

Lemma TimeClip_in_range (t : Z) :
  - maxTimeValue <= t <= maxTimeValue -> TimeClip t = Some t.
Proof.
  intros H. unfold TimeClip.
  destruct (Z.gtb_spec (Z.abs t) maxTimeValue) as [Hgt|Hle]; [lia | reflexivity].
Qed.

Lemma MakeDay_in_year (y m date : Z) :
  1 <= m <= 12 ->
  - maxDay <= DayFromYear y + MonthStartDay (m - 1) (leap_day y) <= maxDay ->
  MakeDay y (m - 1) date
  = Some (DayFromYear y + MonthStartDay (m - 1) (leap_day y) + date - 1).
Proof.
  intros Hm Hrange. unfold MakeDay.
  replace ((m - 1) / 12) with 0 by (Z.div_mod_to_equations; lia).
  replace ((m - 1) mod 12) with (m - 1) by (Z.div_mod_to_equations; lia).
  rewrite Z.add_0_r. fold (leap_day y).
  rewrite TimeClip_in_range; [reflexivity|].
  unfold maxDay, maxTimeValue, msPerDay in *. lia.
Qed.

Lemma day_number_range (y m d : Z) :
  valid_date y m d -> 1000 <= y <= 9999 ->
  -354286 <= day_number (y, m, d) <= 2932896.
Proof.
  intros Hv Hy. pose proof (day_number_in_year y m d Hv) as [Hlo Hhi].
  assert (DayFromYear 1000 <= DayFromYear y).
  { destruct (Z.eq_dec y 1000) as [->|]; [lia|].
    apply Z.lt_le_incl, DayFromYear_lt. lia. }
  assert (DayFromYear (y + 1) <= DayFromYear 10000).
  { destruct (Z.eq_dec (y + 1) 10000) as [->|]; [lia|].
    apply Z.lt_le_incl, DayFromYear_lt. lia. }
  change (DayFromYear 1000) with (-354285) in *.
  change (DayFromYear 10000) with 2932897 in *. lia.
Qed.

Lemma month_start_range (y m d : Z) :
  valid_date y m d ->
  day_number (y, m, d) - 31 <= DayFromYear y + MonthStartDay (m - 1) (leap_day y)
  <= day_number (y, m, d).
Proof.
  intros [Hm Hd]. unfold day_number.
  assert (DaysInMonth y m <= 31).
  { unfold DaysInMonth. destruct (DaysInYear_cases y) as [[_ Hl]|[_ Hl]];
      rewrite Hl; month_cases m; cbv beta iota; lia. }
  lia.
Qed.

Lemma all_in_range_spec (f : Z -> bool) (n : nat) (lo z : Z) :
  all_in_range f lo n = true -> lo <= z < lo + Z.of_nat n -> f z = true.
Proof.
  revert lo. induction n as [|n IH]; intros lo H Hz; [lia|].
  simpl in H. apply andb_true_iff in H. destruct H as [Hlo Hrest].
  destruct (Z.eq_dec z lo) as [->|Hne]; [exact Hlo|].
  apply (IH (lo + 1)); [exact Hrest | lia].
Qed.

Lemma pad4_year (z : Z) :
  1000 <= z < 276000 ->
  padStart 4 "0" (String_of (Some z)) = String_of (Some z).
Proof.
  intros Hz. apply String.eqb_eq.
  apply (all_in_range_spec
           (fun y => String.eqb (padStart 4 "0" (String_of (Some y)))
                                (String_of (Some y)))
           (Z.to_nat 275000) 1000 z).
  - vm_compute. reflexivity.
  - rewrite Z2Nat.id; lia.
Qed.

Section Weekly.
Variable StringToNumber_other : string -> jsnum.
Variable roundToDouble : number -> jsnum.

Lemma month_index (m : Z) :
  1 <= m <= 12 ->
  exists q, js_sub roundToDouble (Finite (inject_Z m)) (Finite 1%Q) = Finite q /\
            truncate q = m - 1.
Proof.
  intros Hm. month_cases m; eexists; split; reflexivity.
Qed.

Lemma Date_UTC_civil (y m d : Z) (q : number) :
  valid_date y m d -> 1000 <= y <= 9999 -> truncate q = m - 1 ->
  Date_UTC (Finite (inject_Z y)) (Finite q) (Finite (inject_Z d))
  = Some (day_number (y, m, d) * msPerDay).
Proof.
  intros Hv Hy Hq. unfold Date_UTC, MakeFullYear.
  rewrite truncate_inject_Z.
  destruct (Z.leb_spec 0 y); [|lia].
  destruct (Z.leb_spec y 99); [lia|]. cbn [andb].
  rewrite Hq, !truncate_inject_Z.
  pose proof (day_number_range y m d Hv Hy) as Hr.
  pose proof (month_start_range y m d Hv) as Hs.
  rewrite MakeDay_in_year by (unfold maxDay; destruct Hv; lia).
  unfold MakeDate. rewrite Z.add_0_r.
  unfold day_number in *.
  apply TimeClip_in_range. unfold maxTimeValue, msPerDay. lia.
Qed.

Lemma iso_date_parts (y m d : Z) :
  1000 <= y <= 9999 -> 1 <= m -> 1 <= d ->
  split "-" (iso_date (y, m, d))
  = [String_of (Some y); padStart 2 "0" (String_of (Some m));
     padStart 2 "0" (String_of (Some d))].
Proof.
  intros Hy Hm Hd. unfold iso_date. rewrite pad4_year by lia.
  cbn [String.append].
  rewrite split_app_dash by (apply no_dash_String_of; lia).
  rewrite split_app_dash by (apply no_dash_padStart; lia).
  rewrite split_no_dash by (apply no_dash_padStart; lia).
  reflexivity.
Qed.

(** The string the loop body pushes for the time value of day [dn + 7 i]. *)
Lemma pushed_string (c : Z * Z * Z) :
  (let '(y, m, d) := c in valid_date y m d /\ 1000 <= y < 276000) ->
  let dt : DateObject := Some (day_number c * msPerDay) in
  (String_of (getUTCFullYear dt) ++ "-" ++
   padStart 2 "0" (String_of (option_map (fun mo => mo + 1) (getUTCMonth dt))) ++ "-" ++
   padStart 2 "0" (String_of (getUTCDate dt)))%string
  = iso_date c.
Proof.
  destruct c as [[y m] d]. intros [Hv Hy] dt. subst dt.
  assert (Htod : 0 <= 0 < msPerDay) by (unfold msPerDay; lia).
  pose proof (civil_of_time y m d 0 Hv Htod) as Hc.
  rewrite Z.add_0_r in Hc. cbv zeta in Hc. destruct Hc as (Hyear & Hmonth & Hdate).
  unfold getUTCFullYear, getUTCMonth, getUTCDate, option_map.
  rewrite Hyear, Hmonth, Hdate. unfold iso_date.
  rewrite pad4_year by lia. replace (m - 1 + 1) with m by lia. reflexivity.
Qed.

(** C5 (amended): for a base string that is a calendar date written
    YYYY-MM-DD with a year from 1000 to 9999, and a count that keeps the
    last date within the range of [Date] (day 100,000,000 of the epoch,
    13 September 275760), the result lists, for [i = 0, 1, ..., count - 1],
    the calendar date [7 * i] days after the base, written YYYY-MM-DD: the
    base itself first, then one week later at each step. *)
Theorem buildExpirationList_weekly (y m d count : Z) :
  valid_date y m d -> 1000 <= y <= 9999 ->
  0 <= count -> day_number (y, m, d) + 7 * (count - 1) <= maxDay ->
  buildExpirationList StringToNumber_other roundToDouble (iso_date (y, m, d)) count
  = map (fun i => iso_date (add_days (7 * i) (y, m, d))) (seq 0 (Z.to_nat count)).
Proof.
  intros Hv Hy Hcount Hlast. pose proof Hv as [Hm Hd]. unfold maxDay in Hlast.
  unfold buildExpirationList.
  rewrite iso_date_parts by lia.
  rewrite Number_String_of by (unfold maxSafeInteger; lia).
  rewrite !Number_padStart
    by (unfold maxSafeInteger, DaysInMonth, leap_day in *;
        destruct (DaysInYear y =? 366); month_cases m; cbv beta iota in Hd; lia).
  rewrite !truthy_inject_Z.
  destruct (Z.eqb_spec y 0); [lia|].
  destruct (Z.eqb_spec m 0); [lia|].
  destruct (Z.eqb_spec d 0); [lia|]. cbn [negb orb].
  destruct (month_index m Hm) as (q & -> & Hq).
  rewrite (Date_UTC_civil y m d q Hv Hy Hq).
  pose proof (day_number_range y m d Hv Hy) as Hrange.
  pose proof (month_start_range y m d Hv) as Hstart.
  assert (Htod : 0 <= 0 < msPerDay) by (unfold msPerDay; lia).
  pose proof (civil_of_time y m d 0 Hv Htod) as Hbase.
  rewrite Z.add_0_r in Hbase. cbv zeta in Hbase.
  destruct Hbase as (Hyear & Hmonth & Hdate).
  unfold new_Date, new_Date_copy.
  rewrite TimeClip_in_range by (unfold maxTimeValue, msPerDay; lia).
  unfold loop_indices. rewrite map_map. apply map_ext_in.
  intros i Hi. apply in_seq in Hi.
  assert (Hi' : 0 <= Z.of_nat i < count) by lia.
  cbv zeta.
  destruct (add_days_spec (7 * i) (y, m, d) Hv) as [Hvi Hdn].
  assert (Hset : setUTCDate (Some (day_number (y, m, d) * msPerDay))
                   (option_map (fun date => date + 7 * Z.of_nat i)
                      (getUTCDate (Some (day_number (y, m, d) * msPerDay))))
                 = Some (day_number (add_days (7 * i) (y, m, d)) * msPerDay)).
  { unfold getUTCDate, option_map, setUTCDate.
    rewrite Hyear, Hmonth, Hdate.
    rewrite MakeDay_in_year by (unfold maxDay; lia).
    pose proof (Day_of_time (day_number (y, m, d)) 0 Htod) as [_ Hwithin].
    rewrite Z.add_0_r in Hwithin. rewrite Hwithin.
    unfold MakeDate. rewrite Z.add_0_r. rewrite Hdn.
    replace (DayFromYear y + MonthStartDay (m - 1) (leap_day y)
             + (d + 7 * Z.of_nat i) - 1)
      with (day_number (y, m, d) + Z.of_nat (7 * i))
      by (unfold day_number; lia).
    apply TimeClip_in_range. unfold maxTimeValue, msPerDay. lia. }
  rewrite Hset. apply pushed_string.
  destruct (add_days (7 * i) (y, m, d)) as [[yi mi] di].
  split; [exact Hvi|].
  pose proof (day_number_in_year yi mi di Hvi) as [Hlo Hhi].
  pose proof (day_number_in_year y m d Hv) as [Hlo0 Hhi0].
  split.
  - assert (y < yi + 1) by (apply DayFromYear_lt_inv; lia). lia.
  - apply DayFromYear_lt_inv.
    change (DayFromYear 276000) with 100087402. lia.
Qed.
End Weekly.

(** The example of the specification: three weekly expirations from
    2025-11-28. *)
Lemma buildExpirationList_weekly_example :
  valid_date 2025 11 28 /\ 1000 <= 2025 <= 9999 /\ 0 <= 3 /\
  day_number (2025, 11, 28) + 7 * (3 - 1) <= maxDay /\
  buildExpirationList no_other_literal no_rounding "2025-11-28" 3
  = ["2025-11-28"; "2025-12-05"; "2025-12-12"]%string.
Proof.
  assert (Hv : valid_date 2025 11 28) by (unfold valid_date; simpl; lia).
  assert (Hy : 1000 <= 2025 <= 9999) by lia.
  assert (Hc : 0 <= 3) by lia.
  assert (Hl : day_number (2025, 11, 28) + 7 * (3 - 1) <= maxDay)
    by (vm_compute; discriminate).
  split; [exact Hv|]. split; [exact Hy|]. split; [exact Hc|]. split; [exact Hl|].
  exact (buildExpirationList_weekly no_other_literal no_rounding
           2025 11 28 3 Hv Hy Hc Hl).
Defined.

(** Below the year 1000 the first entry is not the base string: the year
    comes back without its leading zero. *)
Lemma buildExpirationList_year_999 :
  valid_date 999 1 1 /\
  iso_date (999, 1, 1) = "0999-01-01"%string /\
  buildExpirationList no_other_literal no_rounding "0999-01-01" 2
  = ["999-01-01"; "999-01-08"]%string /\
  buildExpirationList no_other_literal no_rounding (iso_date (999, 1, 1)) 2
  <> map (fun i => iso_date (add_days (7 * i) (999, 1, 1))) (seq 0 2).
Proof.
  split; [unfold valid_date; simpl; lia|].
  split; [reflexivity|]. split; [reflexivity|].
  vm_compute. discriminate.
Qed.

(** A year from 1 to 99 is taken as 1901 to 1999 ([MakeFullYear]). *)
Example buildExpirationList_year_50 :
  buildExpirationList no_other_literal no_rounding "0050-01-01" 2
  = ["1950-01-01"; "1950-01-08"]%string.
Proof. reflexivity. Qed.

(** A month or day out of range rolls over, and a base that is not
    zero-padded comes back padded. *)
Example buildExpirationList_unpadded :
  buildExpirationList no_other_literal no_rounding "2025-1-5" 2
  = ["2025-01-05"; "2025-01-12"]%string /\
  buildExpirationList no_other_literal no_rounding "2025-13-45" 1
  = ["2026-02-14"]%string.
Proof. split; reflexivity. Qed.

(** ** Length and fallback of [buildExpirationList] *)

Lemma map_const_repeat {A B : Type} (b : B) (l : list A) :
  map (fun _ => b) l = repeat b (List.length l).
Proof. induction l as [|x l IH]; simpl; [reflexivity | f_equal; exact IH]. Qed.

Lemma length_loop_indices (n : nat) : List.length (loop_indices (Z.of_nat n)) = n.
Proof.
  unfold loop_indices. rewrite length_map, length_seq. apply Nat2Z.id.
Qed.

(** The pieces [split] returns hold no separator: a component of the base
    string never carries a minus sign, so a component that is a number is
    not negative, and "not a positive number" is "NaN or zero", which is
    what [!y] tests. *)
Lemma split_pieces_no_dash (s piece : string) :
  In piece (split "-" s) -> no_dash piece = true.
Proof.
  revert piece. induction s as [|c s IH]; simpl; intros piece H.
  - destruct H as [<-|[]]. reflexivity.
  - destruct (Ascii.eqb c "-") eqn:E.
    + destruct H as [<-|H]; [reflexivity | apply IH; exact H].
    + destruct (split "-" s) as [|p ps].
      * destruct H as [<-|[]]. simpl. rewrite E. reflexivity.
      * destruct H as [<-|H].
        -- simpl. rewrite E. simpl. apply IH. left. reflexivity.
        -- apply IH. right. exact H.
Qed.

(** C10: for every base string and every count [n >= 0] the result has
    exactly [n] entries (the function is total: no input makes it fail); and
    when the base string does not split into three parts at ["-"], or one of
    its parts converts to NaN or to zero, the result is the base string
    itself, [n] times. *)
Theorem buildExpirationList_length_and_fallback
    (StringToNumber_other : string -> jsnum) (roundToDouble : number -> jsnum)
    (base : string) (n : nat) :
  List.length (buildExpirationList StringToNumber_other roundToDouble
                 base (Z.of_nat n)) = n /\
  (List.length (split "-" base) <> 3%nat \/
   (exists part, In part (split "-" base) /\
                 truthy (Number StringToNumber_other roundToDouble part) = false) ->
   buildExpirationList StringToNumber_other roundToDouble base (Z.of_nat n)
   = repeat base n).
Proof.
  unfold buildExpirationList.
  pose proof (length_loop_indices n) as Hlen.
  destruct (split "-" base) as [|yStr [|mStr [|dStr [|extra rest]]]];
    try (split; [rewrite length_map; exact Hlen
                | intros _; rewrite map_const_repeat, Hlen; reflexivity]).
  destruct (negb (truthy (Number StringToNumber_other roundToDouble yStr))
            || negb (truthy (Number StringToNumber_other roundToDouble mStr))
            || negb (truthy (Number StringToNumber_other roundToDouble dStr)))%bool
    eqn:Efalsy.
  - split; [rewrite length_map; exact Hlen
           | intros _; rewrite map_const_repeat, Hlen; reflexivity].
  - split; [rewrite length_map; exact Hlen|].
    intros [Hparts | (part & Hin & Hfalsy)]; [simpl in Hparts; congruence|].
    apply orb_false_iff in Efalsy. destruct Efalsy as [Efalsy Hd].
    apply orb_false_iff in Efalsy. destruct Efalsy as [Hy Hm].
    apply negb_false_iff in Hy, Hm, Hd.
    destruct Hin as [<-|[<-|[<-|[]]]]; congruence.
Qed.

Example buildExpirationList_fallback :
  buildExpirationList no_other_literal no_rounding "2025-11" 2
  = ["2025-11"; "2025-11"]%string /\
  buildExpirationList no_other_literal no_rounding "2025-00-28" 2
  = ["2025-00-28"; "2025-00-28"]%string /\
  buildExpirationList no_other_literal no_rounding "" 1 = [""%string] /\
  buildExpirationList no_other_literal no_rounding "2025-11-28" (-1) = [].
Proof. repeat split. Qed.

(** ** Re-running a query *)

Local Close Scope Z_scope.
Local Open Scope Q_scope.

Lemma Promise_all_fulfilled_iff {A : Type} (order : list nat)
    (ps : list (Settled A)) (values : list A) :
  Promise_all order ps = Fulfilled values -> all_fulfilled ps = Some values.
Proof.
  unfold Promise_all. destruct (all_fulfilled ps) as [vs|] eqn:E.
  - intros [= ->]. reflexivity.
  - intros H. exfalso.
    assert (Hrej : exists e, In (Rejected e) ps).
    { clear H. induction ps as [|[v|e] ps IH]; simpl in E.
      - discriminate.
      - destruct (all_fulfilled ps); [discriminate|].
        destruct (IH eq_refl) as [e He]. exists e. right. exact He.
      - exists e. left. reflexivity. }
    destruct Hrej as [e He].
    destruct (Promise_all_rejects order ps e He) as [e' He'].
    unfold Promise_all in He'. rewrite E in He'. rewrite He' in H. discriminate.
Qed.

Lemma records_of_fetchAll
    (StringToNumber_other : string -> jsnum) (roundToDouble : number -> jsnum)
    (world : World) (params : option QueryParams) (st : AppState) :
  let st' := fetchAll StringToNumber_other roundToDouble world params st in
  match all_fulfilled (promises StringToNumber_other roundToDouble world
                         (effective_params params st)) with
  | Some values =>
      records st' = values /\ error st' = None
  | None => records st' = []
  end /\ st_showNeighbors st' = st_showNeighbors st.
Proof.
  intros st'. subst st'. unfold fetchAll.
  set (ps := promises _ _ _ _).
  destruct (Promise_all (settleOrder world) ps) as [values|e] eqn:E.
  - rewrite (Promise_all_fulfilled_iff _ _ _ E). simpl. auto.
  - destruct (all_fulfilled ps) as [values|] eqn:Eall.
    + unfold Promise_all in E. rewrite Eall in E. discriminate.
    + simpl. auto.
Qed.

(** C9: two runs of a query on identical inputs (the same parameters, the
    same component state, the same answers from the backend) store the same
    records and draw the same tables, whatever the clock reads and in
    whatever order the requests settle in either run; the classification
    stage and [buildExpirationList] take neither a clock nor a source of
    randomness, so they are functions of their arguments alone. *)
Theorem rerun_gives_identical_output
    (StringToNumber_other : string -> jsnum) (roundToDouble : number -> jsnum)
    (w1 w2 : World) (params : option QueryParams) (st : AppState) :
  (forall i rq, fetch w1 i rq = fetch w2 i rq) ->
  let st1 := fetchAll StringToNumber_other roundToDouble w1 params st in
  let st2 := fetchAll StringToNumber_other roundToDouble w2 params st in
  records st1 = records st2 /\ rendered_tables st1 = rendered_tables st2.
Proof.
  intros Hfetch st1 st2.
  pose proof (records_of_fetchAll StringToNumber_other roundToDouble w1 params st)
    as [H1 Hs1].
  pose proof (records_of_fetchAll StringToNumber_other roundToDouble w2 params st)
    as [H2 Hs2].
  fold st1 in H1, Hs1. fold st2 in H2, Hs2.
  assert (Hps : promises StringToNumber_other roundToDouble w1
                  (effective_params params st)
                = promises StringToNumber_other roundToDouble w2
                    (effective_params params st)).
  { unfold promises. apply map_ext. intros [i expDate].
    unfold fetch_expiration. rewrite Hfetch. reflexivity. }
  rewrite Hps in H1.
  destruct (all_fulfilled _) as [values|].
  - destruct H1 as [R1 E1], H2 as [R2 E2].
    split; [congruence|].
    unfold rendered_tables, error_shown. rewrite E1, E2, R1, R2, Hs1, Hs2.
    reflexivity.
  - split; [congruence|].
    unfold rendered_tables. rewrite H1, H2.
    destruct (error_shown st1), (error_shown st2); reflexivity.
Qed.

(** The clock and the settle order differ between the two runs; the records
    and the tables do not. *)
Lemma rerun_gives_identical_output_example :
  let w1 := sample_world [0]%nat 1764288000000%Z in
  let w2 := sample_world [] 1764288010000%Z in
  let st1 := fetchAll no_other_literal no_rounding w1
               (Some (sample_query 1)) initial_state in
  let st2 := fetchAll no_other_literal no_rounding w2
               (Some (sample_query 1)) initial_state in
  (forall i rq, fetch w1 i rq = fetch w2 i rq) /\
  lastUpdated st1 = Some 1764288000000%Z /\
  lastUpdated st2 = Some 1764288010000%Z /\
  records st1 = records st2 /\
  map (fun t => map (fun o => (classification o, score o)) (fst t))
      (rendered_tables st1) = [[(best, "★"%string)]] /\
  rendered_tables st1 = rendered_tables st2.
Proof.
  intros w1 w2 st1 st2.
  assert (Hfetch : forall i rq, fetch w1 i rq = fetch w2 i rq) by reflexivity.
  destruct (rerun_gives_identical_output no_other_literal no_rounding w1 w2
              (Some (sample_query 1)) initial_state Hfetch) as [Hrec Htab].
  split; [exact Hfetch|]. split; [reflexivity|]. split; [reflexivity|].
  split; [exact Hrec|]. split; [reflexivity | exact Htab].
Defined.

(** ** More on the display pipeline *)

Lemma promote_classification (maxc : option jsnum) (p : ClassifiedRow) :
  (classification (promote maxc p) = best /\ classification p = opportunity) \/
  classification (promote maxc p) = classification p.
Proof.
  unfold promote. simpl.
  destruct (classification p); auto.
  destruct maxc as [m|]; auto.
  destruct (row_credit (row p)) as [c|]; auto.
  destruct (strict_eq c m); auto.
Qed.

Lemma promote_score (maxc : option jsnum) (p : ClassifiedRow) :
  score (promote maxc p) = scoreForClassification (classification (promote maxc p)) /\
  rowClass (promote maxc p)
  = rowClassForClassification (classification (promote maxc p)).
Proof. split; reflexivity. Qed.

(** X1: every row of the table carries the score and the row class of its
    final classification, and it shows a marker (star or check mark), and
    is drawn in the strongest tone, exactly when it is a full match: of
    [opportunity] kind with all three flags set. *)
Theorem marker_iff_full_match (data : RollingResponse) (showNeighbors : bool) :
  Forall
    (fun o =>
       score o = scoreForClassification (classification o) /\
       rowClass o = rowClassForClassification (classification o) /\
       (score o <> ""%string <->
        type (row o) = type_opportunity /\ meets_band (row o) = true /\
        meets_delta (row o) = true /\ meets_credit (row o) = true) /\
       (rowClass o = "row-best"%string <->
        type (row o) = type_opportunity /\ meets_band (row o) = true /\
        meets_delta (row o) = true /\ meets_credit (row o) = true))
    (rowsWithScore data showNeighbors).
Proof.
  apply Forall_forall. intros o Ho. unfold rowsWithScore in Ho.
  apply in_map_iff in Ho. destruct Ho as (p & <- & Hp).
  destruct (promote_score (maxCredit data showNeighbors) p) as [Hs Hc].
  split; [exact Hs|]. split; [exact Hc|].
  rewrite Hs, Hc, row_promote, <- classifyRow_opportunity.
  rewrite <- (prelim_classification _ _ _ Hp).
  assert (Hnb : classification p <> best).
  { rewrite (prelim_classification _ _ _ Hp). apply classifyRow_never_best. }
  destruct (promote_classification (maxCredit data showNeighbors) p)
    as [[-> ->] | ->].
  - simpl. split; split; intros; try reflexivity; discriminate.
  - destruct (classification p); simpl; split; split; intros H;
      try reflexivity; try discriminate; try congruence.
Qed.

Lemma strict_eq_refl (c : number) : strict_eq c (Finite c) = true.
Proof. simpl. apply Qeq_bool_iff. reflexivity. Qed.

(** X2: as soon as one merged row is a full match that carries a credit,
    some row of the table is [best] and shows the star; and any two [best]
    rows carry equal credits. *)
Theorem some_full_match_is_best (data : RollingResponse) (showNeighbors : bool) :
  (exists r c, In r (baseRows data showNeighbors) /\
               classifyRow r = opportunity /\ row_credit r = Some c) ->
  (exists o, In o (rowsWithScore data showNeighbors) /\
             classification o = best /\ score o = "★"%string) /\
  (forall o1 o2 c1 c2,
      In o1 (rowsWithScore data showNeighbors) ->
      In o2 (rowsWithScore data showNeighbors) ->
      classification o1 = best -> classification o2 = best ->
      row_credit (row o1) = Some c1 -> row_credit (row o2) = Some c2 ->
      c1 == c2).
Proof.
  intros (r & c & Hr & Hcls & Hcred). split.
  - assert (Hin : In {| row := r; classification := classifyRow r;
                        score := ""; rowClass := "" |}
                     (fullMatches data showNeighbors)).
    { apply filter_In. split.
      - unfold prelim. apply in_map_iff. exists r. split; [reflexivity|].
        unfold sorted.
        eapply Permutation_in; [|exact Hr].
        apply Permutation_sym. apply (Array_sort_perm row_strike).
      - apply is_full_match_iff. simpl. split; [exact Hcls | eauto]. }
    pose proof (maxCredit_spec data showNeighbors) as Hmax.
    destruct (maxCredit data showNeighbors) as [m|] eqn:Em.
    + destruct Hmax as (mq & q & -> & Hq & Hqc & _).
      exists (promote (Some (Finite mq)) q). split; [|split].
      * unfold rowsWithScore. rewrite Em. apply in_map.
        apply filter_In in Hq. tauto.
      * apply filter_In in Hq. destruct Hq as [_ Hq].
        apply is_full_match_iff in Hq. destruct Hq as [Hopp _].
        unfold promote. simpl. rewrite Hopp, Hqc.
        change (Qeq_bool mq mq) with (strict_eq mq (Finite mq)).
        rewrite strict_eq_refl. reflexivity.
      * apply filter_In in Hq. destruct Hq as [_ Hq].
        apply is_full_match_iff in Hq. destruct Hq as [Hopp _].
        unfold promote. simpl. rewrite Hopp, Hqc.
        change (Qeq_bool mq mq) with (strict_eq mq (Finite mq)).
        rewrite strict_eq_refl. reflexivity.
    + rewrite Hmax in Hin. destruct Hin.
  - intros o1 o2 c1 c2 H1 H2 B1 B2 C1 C2.
    unfold rowsWithScore in H1, H2.
    apply in_map_iff in H1. destruct H1 as (p1 & <- & Hp1).
    apply in_map_iff in H2. destruct H2 as (p2 & <- & Hp2).
    apply promote_best_iff in B1; [|exact Hp1].
    apply promote_best_iff in B2; [|exact Hp2].
    rewrite row_promote in C1, C2.
    destruct B1 as (O1 & d1 & D1 & M1). destruct B2 as (O2 & d2 & D2 & M2).
    assert (d1 = c1) by congruence. assert (d2 = c2) by congruence. subst.
    apply Qle_antisym.
    + apply (M2 p1 c1 Hp1 O1 C1).
    + apply (M1 p2 c2 Hp2 O2 C2).
Qed.

Lemma some_full_match_is_best_example :
  let data := sample_response
                [sample_row "P97" 97 (8 # 1000) type_opportunity;
                 sample_row "P95" 95 (9 # 1000) type_opportunity] [] [] in
  (exists r c, In r (baseRows data true) /\
               classifyRow r = opportunity /\ row_credit r = Some c) /\
  (exists o, In o (rowsWithScore data true) /\
             classification o = best /\ score o = "★"%string).
Proof.
  intros data.
  assert (H : exists r c, In r (baseRows data true) /\
                          classifyRow r = opportunity /\ row_credit r = Some c).
  { exists (sample_row "P97" 97 (8 # 1000) type_opportunity), (8 # 1000).
    split; [left; reflexivity | split; reflexivity]. }
  split; [exact H|].
  exact (proj1 (some_full_match_is_best data true H)).
Defined.

Section StableSort.
Context {A : Type}.
Variable key : A -> number.
Variable k : number.

Let cmp (a b : A) : number := key a - key b.
Let at_k (a : A) : bool := Qeq_bool (key a) k.

Lemma filter_sort_insert (x : A) (l : list A) :
  filter at_k (sort_insert cmp x l) = filter at_k (x :: l).
Proof.
  induction l as [|y l IH]; simpl; [reflexivity|].
  destruct (Qle_bool (cmp x y) 0) eqn:E; [reflexivity|].
  simpl. rewrite IH. simpl.
  destruct (at_k x) eqn:Ex; [|reflexivity].
  destruct (at_k y) eqn:Ey; [|reflexivity].
  exfalso. unfold at_k in Ex, Ey. apply Qeq_bool_iff in Ex, Ey.
  assert (Hle : key x <= key y) by (rewrite Ex, Ey; apply Qle_refl).
  apply (cmp_nonpos key) in Hle. unfold cmp in E. congruence.
Qed.

Lemma filter_Array_sort (l : list A) :
  filter at_k (Array_sort cmp l) = filter at_k l.
Proof.
  induction l as [|x l IH]; simpl; [reflexivity|].
  rewrite filter_sort_insert. simpl. rewrite IH. reflexivity.
Qed.
End StableSort.

(** X3: sorting by strike keeps the input order among rows of equal strike:
    for every strike [k], the rows at [k] stand in the table in the order
    they have in [opportunities ++ neighbors] (an opportunity before a
    neighbor), and the incomplete rows at [k] in the order of the response. *)
Theorem equal_strikes_keep_input_order
    (data : RollingResponse) (showNeighbors : bool) (k : number) :
  filter (fun r => Qeq_bool (row_strike r) k)
         (map row (rowsWithScore data showNeighbors))
  = filter (fun r => Qeq_bool (row_strike r) k) (baseRows data showNeighbors) /\
  filter (fun r => Qeq_bool (strike_price (incomplete_fields r)) k)
         (incompleteSorted data)
  = filter (fun r => Qeq_bool (strike_price (incomplete_fields r)) k)
           (incomplete data).
Proof.
  split.
  - rewrite rows_of_rowsWithScore. apply (filter_Array_sort row_strike k).
  - apply (filter_Array_sort (fun r => strike_price (incomplete_fields r)) k).
Qed.

(** ** More on the batch fetch *)

Lemma all_fulfilled_map (A : Type) (values : list A) :
  all_fulfilled (map Fulfilled values) = Some values.
Proof.
  induction values as [|v vs IH]; simpl; [reflexivity|].
  rewrite IH. reflexivity.
Qed.

Lemma length_indexed {A : Type} (l : list A) :
  List.length (indexed l) = List.length l.
Proof.
  unfold indexed. rewrite length_combine, length_seq. apply Nat.min_id.
Qed.

Lemma length_buildExpirationList
    (StringToNumber_other : string -> jsnum) (roundToDouble : number -> jsnum)
    (base : string) (count : Z) :
  List.length (buildExpirationList StringToNumber_other roundToDouble base count)
  = Z.to_nat count.
Proof.
  assert (Hlen : List.length (loop_indices count) = Z.to_nat count).
  { unfold loop_indices. rewrite length_map, length_seq. reflexivity. }
  unfold buildExpirationList.
  destruct (split "-" base) as [|yStr [|mStr [|dStr [|extra rest]]]];
    try (rewrite length_map; exact Hlen).
  destruct (_ || _ || _)%bool; rewrite length_map; exact Hlen.
Qed.

Lemma length_promises
    (StringToNumber_other : string -> jsnum) (roundToDouble : number -> jsnum)
    (w : World) (q : QueryParams) :
  List.length (promises StringToNumber_other roundToDouble w q)
  = Z.to_nat (qp_numExpirations q).
Proof.
  unfold promises. rewrite length_map, length_indexed.
  apply length_buildExpirationList.
Qed.



Lemma first_some_skip {A : Type} (l1 l2 : list (option A)) :
  Forall (fun x => x = None) l1 -> first_some (l1 ++ l2) = first_some l2.
Proof.
  induction 1 as [|x l1 Hx _ IH]; simpl; [reflexivity|].
  rewrite Hx. exact IH.
Qed.

(** X5: when a call fails, the error shown is the one of the request that
    was rejected first: if the promise at index [i] is rejected and every
    promise that settled before it was fulfilled, the error text is that
    rejection's message, or "Failed to fetch" when it has none. *)
Theorem fetchAll_error_of_first_rejection
    (StringToNumber_other : string -> jsnum) (roundToDouble : number -> jsnum)
    (w : World) (params : option QueryParams) (st : AppState)
    (earlier later : list nat) (i : nat) (e : JsError) :
  settleOrder w = earlier ++ i :: later ->
  nth_error (promises StringToNumber_other roundToDouble w
               (effective_params params st)) i = Some (Rejected e) ->
  (forall j e', In j earlier ->
     nth_error (promises StringToNumber_other roundToDouble w
                  (effective_params params st)) j <> Some (Rejected e')) ->
  error (fetchAll StringToNumber_other roundToDouble w params st)
  = Some match message e with
         | Some msg => msg
         | None => "Failed to fetch"
         end.
Proof.
  intros Horder Hi Hearlier. unfold fetchAll, Promise_all.
  set (ps := promises _ _ _ _) in *.
  rewrite (all_fulfilled_rejected ps e) by (eapply nth_error_In; exact Hi).
  rewrite Horder, map_app. simpl map. rewrite <- app_assoc.
  rewrite first_some_skip.
  - simpl. rewrite Hi. reflexivity.
  - apply Forall_forall. intros x Hx. apply in_map_iff in Hx.
    destruct Hx as (j & <- & Hj).
    destruct (nth_error ps j) as [[v|e']|] eqn:Ej; try reflexivity.
    exfalso. exact (Hearlier j e' Hj Ej).
Qed.

Lemma fetchAll_error_example :
  let w := sample_world [0; 1]%nat 1764288000000%Z in
  settleOrder w = [0%nat] ++ 1%nat :: [] /\
  error (fetchAll no_other_literal no_rounding w
           (Some (sample_query 2)) initial_state)
  = Some "HTTP 500".
Proof.
  intros w.
  assert (Horder : settleOrder w = [0%nat] ++ 1%nat :: []) by reflexivity.
  split; [exact Horder|].
  apply (fetchAll_error_of_first_rejection no_other_literal no_rounding w
           (Some (sample_query 2)) initial_state [0%nat] [] 1
           {| message := Some "HTTP 500" |} Horder).
  - reflexivity.
  - intros j e' [<-|[]].
    change (Some (Fulfilled
                    (sample_response
                       [sample_row "P95" 95 (9 # 1000) type_opportunity] [] []))
            <> Some (Rejected e')).
    intros H. inversion H.
Defined.

(** ** The control panel *)

Lemma js_lt_finite (x y : number) :
  js_lt (Finite x) (Finite y) = true <-> x < y.
Proof.
  simpl. rewrite negb_true_iff. split; intros H.
  - apply Qnot_le_lt. intros Hle. apply Qle_bool_iff in Hle. congruence.
  - destruct (Qle_bool y x) eqn:E; [|reflexivity].
    apply Qle_bool_iff in E. exfalso. exact (Qlt_not_le _ _ H E).
Qed.

Lemma js_lt_finite_false (x y : number) :
  js_lt (Finite x) (Finite y) = false <-> y <= x.
Proof.
  simpl. rewrite negb_false_iff. apply Qle_bool_iff.
Qed.

(** The result of [Math.max(lo, Math.min(hi, v))] for finite bounds
    [lo <= hi] and any [v] but NaN. *)
Lemma clamp_max_min (lo hi : number) (v : jsnum) :
  lo <= hi -> isNaN v = false ->
  exists c,
    Math_max2 (Finite lo) (Math_min2 (Finite hi) v) = Finite c /\
    lo <= c <= hi /\
    (c = lo \/ c = hi \/ v = Finite c) /\
    (forall q, v = Finite q -> lo <= q <= hi -> c == q) /\
    (forall q, v = Finite q -> q < lo -> c = lo) /\
    (forall q, v = Finite q -> hi < q -> c == hi) /\
    (v = NegInfinity -> c = lo) /\
    (v = PosInfinity -> c == hi).
Proof.
  intros Hle Hnan. destruct v as [| | |q]; try discriminate.
  - exists lo. simpl. repeat split; auto; try lra; intros; discriminate.
  - change (Math_min2 (Finite hi) PosInfinity) with (Finite hi).
    unfold Math_max2.
    destruct (js_lt (Finite lo) (Finite hi)) eqn:E.
    + exists hi. repeat split; auto; try lra; intros; discriminate.
    + apply js_lt_finite_false in E.
      exists lo. repeat split; auto; try lra; intros; discriminate.
  - unfold Math_min2.
    destruct (js_lt (Finite q) (Finite hi)) eqn:Eh;
      [apply js_lt_finite in Eh | apply js_lt_finite_false in Eh];
      unfold Math_max2.
    + destruct (js_lt (Finite lo) (Finite q)) eqn:El;
        [apply js_lt_finite in El; exists q
        | apply js_lt_finite_false in El; exists lo];
        repeat split; auto; try lra; try discriminate;
        intros q' [= <-] H; lra.
    + destruct (js_lt (Finite lo) (Finite hi)) eqn:El;
        [apply js_lt_finite in El; exists hi
        | apply js_lt_finite_false in El; exists lo];
        repeat split; auto; try lra; try discriminate;
        intros q' [= <-] H; lra.
Qed.

(** The same for [Math.min(hi, Math.max(lo, v))]. *)
Lemma clamp_min_max (lo hi : number) (v : jsnum) :
  lo <= hi -> isNaN v = false ->
  exists c,
    Math_min2 (Finite hi) (Math_max2 (Finite lo) v) = Finite c /\
    lo <= c <= hi /\
    (c = lo \/ c = hi \/ v = Finite c) /\
    (forall q, v = Finite q -> lo <= q <= hi -> c == q) /\
    (forall q, v = Finite q -> q < lo -> c == lo) /\
    (forall q, v = Finite q -> hi < q -> c = hi) /\
    (v = NegInfinity -> c == lo) /\
    (v = PosInfinity -> c = hi).
Proof.
  intros Hle Hnan. destruct v as [| | |q]; try discriminate.
  - change (Math_max2 (Finite lo) NegInfinity) with (Finite lo).
    unfold Math_min2.
    destruct (js_lt (Finite lo) (Finite hi)) eqn:E;
      [apply js_lt_finite in E; exists lo
      | apply js_lt_finite_false in E; exists hi];
      repeat split; auto; try lra; intros; discriminate.
  - exists hi. simpl. repeat split; auto; try lra; intros; discriminate.
  - unfold Math_max2.
    destruct (js_lt (Finite lo) (Finite q)) eqn:El;
      [apply js_lt_finite in El | apply js_lt_finite_false in El];
      unfold Math_min2.
    + destruct (js_lt (Finite q) (Finite hi)) eqn:Eh;
        [apply js_lt_finite in Eh; exists q
        | apply js_lt_finite_false in Eh; exists hi];
        repeat split; auto; try lra; try discriminate;
        intros q' [= <-] H; lra.
    + destruct (js_lt (Finite lo) (Finite hi)) eqn:Eh;
        [apply js_lt_finite in Eh; exists lo
        | apply js_lt_finite_false in Eh; exists hi];
        repeat split; auto; try lra; try discriminate;
        intros q' [= <-] H; lra.
Qed.

Lemma Math_round_not_NaN (v : jsnum) : isNaN v = false -> isNaN (Math_round v) = false.
Proof. destruct v; simpl; auto. Qed.

Ltac q_order := unfold Qle, Qlt; vm_compute; intros Hc; discriminate Hc.

Lemma limits_ordered :
  DELTA_MAX_MIN <= DELTA_MAX_MAX /\ CREDIT_MIN_MIN <= CREDIT_MIN_MAX /\
  BAND_MIN <= BAND_MAX.
Proof. repeat split; q_order. Qed.

Lemma profile_values_in_range :
  DELTA_MAX_MIN <= lit_0_25 <= DELTA_MAX_MAX /\
  DELTA_MAX_MIN <= lit_0_3 <= DELTA_MAX_MAX /\
  DELTA_MAX_MIN <= lit_0_35 <= DELTA_MAX_MAX /\
  CREDIT_MIN_MIN <= lit_0_006 <= CREDIT_MIN_MAX /\
  CREDIT_MIN_MIN <= lit_0_007 <= CREDIT_MIN_MAX.
Proof. repeat split; q_order. Qed.

(** The constants are the doubles nearest to the decimal literals of the
    source: each is within half a unit in the last place of its literal. *)
Lemma literals_are_nearest_doubles :
  Qabs (DELTA_MAX_MIN - (1 # 10)) <= 1 # 2 ^ 57 /\
  Qabs (CREDIT_MIN_MIN - (3 # 1000)) <= 1 # 2 ^ 62 /\
  Qabs (CREDIT_MIN_MAX - (2 # 100)) <= 1 # 2 ^ 59 /\
  Qabs (lit_0_3 - (3 # 10)) <= 1 # 2 ^ 55 /\
  Qabs (lit_0_35 - (35 # 100)) <= 1 # 2 ^ 55 /\
  Qabs (lit_0_006 - (6 # 1000)) <= 1 # 2 ^ 61 /\
  Qabs (lit_0_007 - (7 # 1000)) <= 1 # 2 ^ 61.
Proof. repeat split; q_order. Qed.

Lemma handleDeltaMaxChange_in_range (val : jsnum) (u : UiState) :
  controls_in_range (app u) ->
  controls_in_range (app (handleDeltaMaxChange val u)).
Proof.
  intros Hinv. unfold handleDeltaMaxChange.
  destruct (isNaN val) eqn:Hnan; [exact Hinv|].
  destruct Hinv as (Hdmin & Hdmax & Hc & Hcmax & Hband & Hn).
  destruct limits_ordered as (Hd & _ & _).
  destruct (clamp_max_min DELTA_MAX_MIN DELTA_MAX_MAX val Hd Hnan)
    as (c & -> & Hrange & _).
  rewrite Hdmin.
  replace (js_lt (Finite c) (Finite DELTA_MAX_MIN)) with false
    by (symmetry; apply js_lt_finite_false; tauto).
  unfold controls_in_range. simpl. tauto.
Qed.

Lemma handleCreditMinChange_in_range (val : jsnum) (u : UiState) :
  controls_in_range (app u) ->
  controls_in_range (app (handleCreditMinChange val u)).
Proof.
  intros Hinv. unfold handleCreditMinChange.
  destruct (isNaN val) eqn:Hnan; [exact Hinv|].
  destruct Hinv as (Hdmin & Hdmax & Hc & Hcmax & Hband & Hn).
  destruct limits_ordered as (_ & Hd & _).
  destruct (clamp_max_min CREDIT_MIN_MIN CREDIT_MIN_MAX val Hd Hnan)
    as (c & -> & Hrange & _).
  unfold controls_in_range. simpl. tauto.
Qed.

Lemma inject_Z_between (lo hi k : Z) :
  inject_Z lo <= inject_Z k <= inject_Z hi -> (lo <= k <= hi)%Z.
Proof. intros [H1 H2]. rewrite <- !Zle_Qle in *. lia. Qed.

Lemma handleBandWindowChange_in_range (val : jsnum) (u : UiState) :
  controls_in_range (app u) ->
  controls_in_range (app (handleBandWindowChange val u)).
Proof.
  intros Hinv. unfold handleBandWindowChange.
  destruct (isNaN val) eqn:Hnan; [exact Hinv|].
  destruct Hinv as (Hdmin & Hdmax & Hc & Hcmax & Hband & Hn).
  destruct limits_ordered as (_ & _ & Hd).
  destruct (clamp_max_min BAND_MIN BAND_MAX (Math_round val) Hd
              (Math_round_not_NaN val Hnan))
    as (c & -> & Hrange & Hcase & _).
  unfold controls_in_range. simpl.
  repeat (split; [assumption|]). split; [|exact Hn].
  destruct Hcase as [-> | [-> | Hround]].
  - exists 1%Z. split; [lia | reflexivity].
  - exists 10%Z. split; [lia | reflexivity].
  - destruct val as [| | |q]; try discriminate.
    injection Hround as <-.
    exists (Qfloor (q + (1 # 2))). split; [|reflexivity].
    apply inject_Z_between. exact Hrange.
Qed.

(** What [handleNumExpChange] stores for any input but NaN. *)
Lemma numExp_clamped (val : jsnum) (old : Z) :
  isNaN val = false ->
  let stored :=
    integer_or (Math_min2 (Finite 3) (Math_max2 (Finite 1) (Math_round val))) old in
  (1 <= stored <= 3)%Z /\
  (forall q, val = Finite q ->
     stored = Z.max 1 (Z.min 3 (Qfloor (q + (1 # 2))))) /\
  (val = PosInfinity -> stored = 3%Z) /\
  (val = NegInfinity -> stored = 1%Z).
Proof.
  intros Hnan stored. subst stored.
  assert (H13 : 1 <= 3) by q_order.
  destruct (clamp_min_max 1 3 (Math_round val) H13 (Math_round_not_NaN val Hnan))
    as (c & -> & Hrange & Hcase & Hin & Hlow & Hhigh & Hneg & Hpos).
  simpl integer_or.
  destruct val as [| | |q]; try discriminate.
  - specialize (Hneg eq_refl).
    assert (Hc : c == inject_Z 1) by exact Hneg.
    assert (Qfloor c = 1%Z) by (rewrite Hc; apply Qfloor_Z).
    repeat split; try lia; intros; discriminate.
  - specialize (Hpos eq_refl). subst c.
    repeat split; try (vm_compute; intros; discriminate);
      intros; try discriminate; reflexivity.
  - set (k := Qfloor (q + (1 # 2))) in *.
    assert (Hk : Math_round (Finite q) = Finite (inject_Z k)) by reflexivity.
    assert (Hfloor : Qfloor c = Z.max 1 (Z.min 3 k)).
    { destruct (Z_lt_le_dec k 1) as [Hk1|Hk1].
      - assert (Hc : c == inject_Z 1).
        { apply (Hlow _ Hk). change 1 with (inject_Z 1).
          rewrite <- Zlt_Qlt. exact Hk1. }
        rewrite Hc, Qfloor_Z. lia.
      - destruct (Z_lt_le_dec 3 k) as [Hk3|Hk3].
        + assert (Hc : c = 3).
          { apply (Hhigh _ Hk). change 3 with (inject_Z 3).
            rewrite <- Zlt_Qlt. exact Hk3. }
          subst c. change (Qfloor 3) with 3%Z. lia.
        + assert (Hc : c == inject_Z k).
          { apply (Hin _ Hk). change 1 with (inject_Z 1).
            change 3 with (inject_Z 3). rewrite <- !Zle_Qle. lia. }
          rewrite Hc, Qfloor_Z. lia. }
    repeat split; try lia; try discriminate.
    intros q' [= <-]. exact Hfloor.
Qed.

Lemma handleNumExpChange_in_range (val : jsnum) (u : UiState) :
  controls_in_range (app u) ->
  controls_in_range (app (handleNumExpChange val u)).
Proof.
  intros Hinv. unfold handleNumExpChange.
  destruct (isNaN val) eqn:Hnan; [exact Hinv|].
  destruct Hinv as (Hdmin & Hdmax & Hc & Hcmax & Hband & Hn).
  destruct (numExp_clamped val (st_numExpirations (app u)) Hnan) as [Hrange _].
  unfold controls_in_range. simpl.
  repeat (split; [assumption|]). exact Hrange.
Qed.

Lemma applyProfile_in_range (p : Profile) (u : UiState) :
  (1 <= st_numExpirations (app u) <= 3)%Z ->
  controls_in_range (app (applyProfile p u)).
Proof.
  intros Hn.
  destruct profile_values_in_range as (H25 & H3 & H35 & H6 & H7).
  unfold controls_in_range.
  destruct p; simpl; repeat (split; try assumption; try reflexivity);
    exists 1%Z; (split; [lia | reflexivity]).
Qed.

Lemma fetchAll_frame
    (StringToNumber_other : string -> jsnum) (roundToDouble : number -> jsnum)
    (w : World) (params : option QueryParams) (st : AppState) :
  let st' := fetchAll StringToNumber_other roundToDouble w params st in
  current_params st' = current_params st /\
  lastQuery st' = Some (effective_params params st) /\
  loading st' = false.
Proof.
  intros st'. subst st'. unfold fetchAll.
  destruct (Promise_all _ _); repeat split.
Qed.

Lemma controls_in_range_params (st st' : AppState) :
  current_params st' = current_params st ->
  controls_in_range st -> controls_in_range st'.
Proof.
  unfold current_params, controls_in_range. intros [= _ _ H1 H2 H3 H4 H5 _ H6].
  rewrite H1, H2, H3, H4, H5, H6. tauto.
Qed.

Section Reachable.
Variable StringToNumber_other : string -> jsnum.
Variable roundToDouble : number -> jsnum.

Lemma handle_in_range (u : UiState) (ev : Event) :
  controls_in_range (app u) ->
  controls_in_range (app (handle StringToNumber_other roundToDouble u ev)).
Proof.
  intros Hinv. destruct ev; cbn [handle].
  - exact Hinv.
  - exact Hinv.
  - exact Hinv.
  - apply handleDeltaMaxChange_in_range. exact Hinv.
  - apply handleCreditMinChange_in_range. exact Hinv.
  - apply handleBandWindowChange_in_range. exact Hinv.
  - apply handleNumExpChange_in_range. exact Hinv.
  - apply applyProfile_in_range. apply Hinv.
  - unfold handleFactoryReset. apply applyProfile_in_range. apply Hinv.
  - cbn [app]. eapply controls_in_range_params; [|exact Hinv].
    unfold handleLoadClick. apply fetchAll_frame.
  - cbn [app]. eapply controls_in_range_params; [|exact Hinv].
    apply fetchAll_frame.
Qed.

Lemma run_in_range (evs : list Event) (u : UiState) :
  controls_in_range (app u) ->
  controls_in_range (app (run StringToNumber_other roundToDouble u evs)).
Proof.
  revert u. induction evs as [|ev evs IH]; intros u Hinv; simpl; [exact Hinv|].
  apply IH. apply handle_in_range. exact Hinv.
Qed.

Lemma mounted_in_range : controls_in_range (app mounted).
Proof.
  destruct profile_values_in_range as (_ & H3 & _ & _ & H7).
  unfold controls_in_range. simpl.
  repeat (split; try assumption; try reflexivity); try lia.
  exists 1%Z. split; [lia | reflexivity].
Qed.

(** X6: whatever the user does from the moment the component mounts
    (typing any text or number, moving sliders, picking profiles, loading,
    failed or successful fetches), the filters stay in range: the lower
    delta bound is 0.1 and the upper credit bound 0.02 throughout, the
    upper delta bound stays in [0.1, 0.5], the lower credit bound in
    [0.003, 0.02], the band distance is a whole number from 1 to 10 and the
    number of expirations is 1, 2 or 3. *)
Theorem controls_stay_in_range (evs : list Event) :
  controls_in_range
    (app (run StringToNumber_other roundToDouble mounted evs)).
Proof. apply run_in_range. apply mounted_in_range. Qed.
End Reachable.

Section ReachableRequests.
Variable StringToNumber_other : string -> jsnum.
Variable roundToDouble : number -> jsnum.

(** X7: in every state the component can reach, a click on Load sends one
    request per expiration and at least one and at most three of them; when
    all are answered, that many records are stored. *)
Theorem load_sends_one_to_three_requests (evs : list Event) (w : World) :
  let u := run StringToNumber_other roundToDouble mounted evs in
  let sent := promises StringToNumber_other roundToDouble w
                (current_params (app u)) in
  List.length sent = Z.to_nat (st_numExpirations (app u)) /\
  (1 <= List.length sent <= 3)%nat /\
  (forall values, sent = map Fulfilled values ->
     List.length
       (records (handleLoadClick StringToNumber_other roundToDouble w (app u)))
     = List.length sent).
Proof.
  intros u sent.
  pose proof (run_in_range StringToNumber_other roundToDouble evs mounted
                mounted_in_range) as (_ & _ & _ & _ & _ & Hn).
  fold u in Hn.
  assert (Hlen : List.length sent = Z.to_nat (st_numExpirations (app u))).
  { subst sent. rewrite length_promises. reflexivity. }
  split; [exact Hlen|]. split; [lia|].
  intros values Hvalues. unfold handleLoadClick.
  unfold fetchAll, Promise_all.
  change (effective_params (Some (current_params (app u))) (app u))
    with (current_params (app u)).
  fold sent. rewrite Hvalues, all_fulfilled_map. simpl.
  symmetry. apply length_map.
Qed.
End ReachableRequests.



(** X9: the number of expirations and the band distance are stored as the
    whole number nearest to the input, a tie going up, limited to 1..3 and
    1..10; an infinite input is stored as the limit on its side, and NaN
    changes nothing.  Changing the number of expirations leaves the profile
    alone. *)
Theorem whole_number_inputs_rounded_and_limited (u : UiState) (q : number) :
  let nearest := Qfloor (q + (1 # 2)) in
  st_numExpirations (app (handleNumExpChange (Finite q) u))
  = Z.max 1 (Z.min 3 nearest) /\
  st_bandWindow (app (handleBandWindowChange (Finite q) u))
  = inject_Z (Z.max 1 (Z.min 10 nearest)) /\
  st_numExpirations (app (handleNumExpChange PosInfinity u)) = 3%Z /\
  st_numExpirations (app (handleNumExpChange NegInfinity u)) = 1%Z /\
  handleNumExpChange NaN u = u /\ handleBandWindowChange NaN u = u /\
  profile (handleNumExpChange (Finite q) u) = profile u.
Proof.
  intros nearest.
  destruct (numExp_clamped (Finite q) (st_numExpirations (app u)) eq_refl)
    as (_ & Hq & _).
  destruct (numExp_clamped PosInfinity (st_numExpirations (app u)) eq_refl)
    as (_ & _ & Hp & _).
  destruct (numExp_clamped NegInfinity (st_numExpirations (app u)) eq_refl)
    as (_ & _ & _ & Hn).
  split; [exact (Hq q eq_refl)|].
  split; [|split; [exact (Hp eq_refl)|split; [exact (Hn eq_refl)|]];
           repeat split].
  unfold handleBandWindowChange. cbn [isNaN].
  destruct limits_ordered as (_ & _ & Hb).
  destruct (clamp_max_min BAND_MIN BAND_MAX (Math_round (Finite q)) Hb eq_refl)
    as (c & -> & Hrange & Hcase & Hin & Hlow & Hhigh & _).
  cbn [app markCustom set_bandWindow with_controls st_bandWindow finite_or].
  assert (Hk : Math_round (Finite q) = Finite (inject_Z nearest)) by reflexivity.
  clear Hq Hp Hn. clearbody nearest.
  unfold BAND_MIN, BAND_MAX in *.
  change 1 with (inject_Z 1) in *. change 10 with (inject_Z 10) in *.
  destruct (Z_lt_le_dec nearest 1) as [H1|H1].
  - rewrite (Hlow _ Hk) by (rewrite <- Zlt_Qlt; exact H1).
    f_equal. lia.
  - destruct (Z_lt_le_dec 10 nearest) as [H10|H10].
    + assert (Hc : c == inject_Z 10)
        by (apply (Hhigh _ Hk); rewrite <- Zlt_Qlt; exact H10).
      destruct Hcase as [-> | [-> | Hround]].
      * apply (proj1 (inject_Z_injective _ _)) in Hc. discriminate.
      * f_equal. lia.
      * rewrite Hk in Hround. injection Hround as <-.
        destruct Hrange as [_ Hr]. rewrite <- Zle_Qle in Hr. exfalso. lia.
    + assert (Hc : c == inject_Z nearest)
        by (apply (Hin _ Hk); rewrite <- !Zle_Qle; lia).
      destruct Hcase as [-> | [-> | Hround]].
      * apply (proj1 (inject_Z_injective _ _)) in Hc. f_equal. lia.
      * apply (proj1 (inject_Z_injective _ _)) in Hc. f_equal. lia.
      * rewrite Hk in Hround. injection Hround as <-. f_equal. lia.
Qed.

(** ** Profiles and the factory reset *)

Section ProfileClicks.
Variable StringToNumber_other : string -> jsnum.
Variable roundToDouble : number -> jsnum.

End ProfileClicks.

(** ** The auto-refresh *)

Section AutoRefreshes.
Variable StringToNumber_other : string -> jsnum.
Variable roundToDouble : number -> jsnum.

Lemma handle_keeps_lastQuery (u : UiState) (ev : Event) :
  is_fetch ev = false ->
  lastQuery (app (handle StringToNumber_other roundToDouble u ev))
  = lastQuery (app u).
Proof.
  intros Hev. destruct ev; try discriminate Hev; cbn [handle]; try reflexivity.
  - unfold handleDeltaMaxChange. destruct (isNaN val); reflexivity.
  - unfold handleCreditMinChange. destruct (isNaN val); reflexivity.
  - unfold handleBandWindowChange. destruct (isNaN val); reflexivity.
  - unfold handleNumExpChange. destruct (isNaN val); reflexivity.
  - destruct p; reflexivity.
Qed.

Lemma run_keeps_lastQuery (evs : list Event) (u : UiState) :
  forallb (fun ev => negb (is_fetch ev)) evs = true ->
  lastQuery (app (run StringToNumber_other roundToDouble u evs))
  = lastQuery (app u).
Proof.
  revert u. induction evs as [|ev evs IH]; intros u Hevs; [reflexivity|].
  simpl in Hevs. apply andb_prop in Hevs as [Hev Hevs].
  simpl. rewrite (IH _ Hevs). apply handle_keeps_lastQuery.
  destruct (is_fetch ev); [discriminate Hev | reflexivity].
Qed.

Lemma fetchAll_results_of_effective (w : World)
    (params params' : option QueryParams) (st st' : AppState) :
  effective_params params st = effective_params params' st' ->
  let a := fetchAll StringToNumber_other roundToDouble w params st in
  let b := fetchAll StringToNumber_other roundToDouble w params' st' in
  lastQuery a = lastQuery b /\ records a = records b /\ error a = error b.
Proof.
  intros Heff a b. subst a b. unfold fetchAll. rewrite Heff.
  destruct (Promise_all _ _); repeat split.
Qed.

(** X11: the auto-refresh repeats the query of the last click on Load:
    whatever was typed, slid or picked since that click, the refresh sends
    the parameters the click sent, so that it stores what a click on Load
    would have stored had it been made, in the state of that click, at the
    moment of the refresh. *)
Theorem auto_refresh_repeats_last_load
    (u0 : UiState) (w0 w : World) (evs : list Event) :
  forallb (fun ev => negb (is_fetch ev)) evs = true ->
  let loaded := handle StringToNumber_other roundToDouble u0 (LoadClick w0) in
  let edited := run StringToNumber_other roundToDouble loaded evs in
  let refreshed :=
    handle StringToNumber_other roundToDouble edited (AutoRefresh w) in
  let clicked := handleLoadClick StringToNumber_other roundToDouble w (app u0) in
  lastQuery (app refreshed) = Some (current_params (app u0)) /\
  records (app refreshed) = records clicked /\
  error (app refreshed) = error clicked.
Proof.
  intros Hevs loaded edited refreshed clicked.
  assert (Hq : lastQuery (app edited) = Some (current_params (app u0))).
  { subst edited. rewrite (run_keeps_lastQuery _ _ Hevs).
    subst loaded. cbn [handle app]. unfold handleLoadClick.
    apply fetchAll_frame. }
  assert (Heff : effective_params None (app edited)
                 = effective_params (Some (current_params (app u0))) (app u0)).
  { unfold effective_params. rewrite Hq. reflexivity. }
  destruct (fetchAll_results_of_effective w _ _ _ _ Heff) as (H1 & H2 & H3).
  subst refreshed clicked. cbn [handle app]. unfold handleLoadClick.
  rewrite H1, H2, H3. repeat split.
  apply fetchAll_frame.
Qed.
End AutoRefreshes.

(** The user loads AAPL for 2025-11-28, then types another expiration and
    moves the delta slider; the refresh still asks for 2025-11-28. *)
Lemma auto_refresh_repeats_last_load_example :
  let evs := [ExpirationInput "2026-01-16"; DeltaMaxInput (Finite (1 # 2))] in
  let w := sample_world [] 1764288010000%Z in
  let refreshed :=
    handle no_other_literal no_rounding
      (run no_other_literal no_rounding
         (handle no_other_literal no_rounding mounted (LoadClick w)) evs)
      (AutoRefresh w) in
  forallb (fun ev => negb (is_fetch ev)) evs = true /\
  st_expiration (app refreshed) = "2026-01-16"%string /\
  option_map qp_expiration (lastQuery (app refreshed))
  = Some "2025-11-28"%string.
Proof.
  intros evs w refreshed.
  destruct (auto_refresh_repeats_last_load no_other_literal no_rounding
              mounted w w evs eq_refl) as (Hq & _ & _).
  split; [reflexivity|]. split; [reflexivity|].
  fold refreshed in Hq. rewrite Hq. reflexivity.
Defined.

(** ** The countdown *)

Lemma ticks_from (n : nat) : forall p : Z,
  (1 <= p <= 10)%Z ->
  ticks n (Some p)
  = (Some (10 - (Z.of_nat n + 10 - p) mod 10)%Z,
     Z.to_nat ((Z.of_nat n + 10 - p) / 10)).
Proof.
  induction n as [|n IH]; intros p Hp.
  - cbn [ticks]. f_equal; [f_equal|];
      change (Z.of_nat 0) with 0%Z; Z.div_mod_to_equations; lia.
  - cbn [ticks]. unfold countdown_tick.
    change (REFRESH_INTERVAL_MS / 1000)%Z with 10%Z.
    rewrite Nat2Z.inj_succ.
    destruct (Z.leb_spec p 1) as [Hle|Hgt].
    + rewrite (IH 10%Z) by lia. f_equal; [f_equal|];
        Z.div_mod_to_equations; lia.
    + rewrite (IH (p - 1)%Z) by lia. f_equal; [f_equal|];
        Z.div_mod_to_equations; lia.
Qed.

(** X12: once the countdown is set to 10 the interval fires a refresh on
    every tenth tick and on no other one: after n ticks there have been
    n / 10 refreshes and the countdown reads 10 - n mod 10; a countdown that
    is off (null) stays off and fires nothing. *)
Theorem refresh_every_tenth_tick (n : nat) :
  ticks n (Some (REFRESH_INTERVAL_MS / 1000)%Z)
  = (Some (10 - Z.of_nat (n mod 10))%Z, (n / 10)%nat) /\
  ticks n None = (None, 0%nat).
Proof.
  split.
  - change (REFRESH_INTERVAL_MS / 1000)%Z with 10%Z.
    rewrite (ticks_from n 10%Z) by lia.
    rewrite Nat2Z.inj_mod.
    replace (Z.of_nat n + 10 - 10)%Z with (Z.of_nat n) by lia.
    f_equal.
    change 10%Z with (Z.of_nat 10).
    rewrite <- Nat2Z.inj_div. apply Nat2Z.id.
  - induction n as [|n IH]; [reflexivity|].
    cbn [ticks countdown_tick]. rewrite IH. reflexivity.
Qed.

(** ** The provider label *)

Lemma toLowerCase_empty (s : string) :
  toLowerCase s = ""%string -> s = ""%string.
Proof. destruct s; [reflexivity | discriminate]. Qed.

(** X13: the label of the data source is never empty; a name is recognised
    whatever its capitals, and a name that is not one of the four known
    providers is shown as the backend sent it. *)
Theorem provider_label_never_empty :
  (forall p : option string, formatProviderLabel p <> ""%string) /\
  (forall p q : string,
     toLowerCase p = toLowerCase q ->
     formatProviderLabel (Some p) = formatProviderLabel (Some q) \/
     (formatProviderLabel (Some p) = p /\ formatProviderLabel (Some q) = q)) /\
  formatProviderLabel (Some "TRADIER_Sandbox"%string)
  = "Tradier (sandbox / paper)"%string /\
  formatProviderLabel (Some "polygon"%string) = "polygon"%string.
Proof.
  split; [|split; [|split; reflexivity]].
  - intros [[|a s]|]; try discriminate.
    unfold formatProviderLabel.
    repeat match goal with
           | |- context [String.eqb ?x ?y] => destruct (String.eqb x y)
           end; discriminate.
  - intros p q Heq. destruct p as [|a s].
    + symmetry in Heq. apply toLowerCase_empty in Heq. subst q. left. reflexivity.
    + destruct q as [|b t]; [discriminate Heq|].
      unfold formatProviderLabel. rewrite Heq.
      repeat match goal with
             | |- context [String.eqb ?x ?y] => destruct (String.eqb x y)
             end; auto.
Qed.

(** ** The blocks of the Opportunities card *)



(** ** The two copies of the classifier *)

(** X15: on a row of [opportunity] kind the older copy of [classifyRow]
    and the first pass of the current one agree on which rows match all
    three filters (called best there, opportunity here) and on which rows
    lie outside the band; what the older copy calls strong is a strong
    candidate here and what is a plain candidate here was weak there.  The
    older copy never leaves the score cell empty. *)
Theorem legacy_classifier_agrees_on_full_matches (r : OpportunityRow) :
  type r = type_opportunity ->
  (Legacy.classifyRow r = Legacy.best <-> classifyRow r = opportunity) /\
  (Legacy.classifyRow r = Legacy.neighbor <-> classifyRow r = neighbor) /\
  (Legacy.classifyRow r = Legacy.strong -> classifyRow r = candidate_strong) /\
  (classifyRow r = candidate -> Legacy.classifyRow r = Legacy.weak) /\
  Legacy.scoreForClassification (Legacy.classifyRow r) <> ""%string.
Proof.
  intros Hkind. unfold Legacy.classifyRow, classifyRow. rewrite Hkind.
  destruct (meets_band r), (meets_delta r), (meets_credit r); simpl;
    repeat split; intros; try discriminate; reflexivity.
Qed.

Lemma legacy_classifier_example :
  let r := sample_row "P95" 95 (9 # 1000) type_opportunity in
  type r = type_opportunity /\
  Legacy.classifyRow r = Legacy.best /\ classifyRow r = opportunity.
Proof.
  intros r.
  destruct (legacy_classifier_agrees_on_full_matches r eq_refl) as (H & _).
  split; [reflexivity|]. split; [reflexivity|].
  apply H. reflexivity.
Defined.

(** ** Number formatting *)





Lemma Qabs_nonneg_eq (q : number) : 0 <= q -> Qabs q = q.
Proof.
  destruct q as [num den]. unfold Qle. simpl. intros H.
  unfold Qabs. f_equal. apply Z.abs_eq. lia.
Qed.

Lemma nearest_scaled_spec (x : number) (P : Z) :
  0 <= x -> (0 < P)%Z ->
  let n := Qfloor (x * inject_Z P + (1 # 2)) in
  (0 <= n)%Z /\ Qabs (inject_Z n - x * inject_Z P) <= 1 # 2.
Proof.
  intros Hx HP n.
  pose proof (Qfloor_le (x * inject_Z P + (1 # 2))) as Hlo.
  pose proof (Qlt_floor (x * inject_Z P + (1 # 2))) as Hhi.
  fold n in Hlo, Hhi. rewrite inject_Z_plus in Hhi.
  assert (HxP : 0 <= x * inject_Z P).
  { apply Qmult_le_0_compat; [exact Hx|].
    change 0 with (inject_Z 0). rewrite <- Zle_Qle. lia. }
  split.
  - assert (H : inject_Z (-1) < inject_Z n).
    { change (inject_Z (-1)) with (-1 # 1). change (inject_Z 1) with 1 in Hhi.
      lra. }
    rewrite <- Zlt_Qlt in H. lia.
  - apply Qabs_Qle_condition. change (inject_Z 1) with 1 in Hhi. split; lra.
Qed.

Section FormattingFacts.
Variable toString_large : number -> string.


End FormattingFacts.


Lemma String_of_two_digits (n : Z) :
  (10 <= n <= 99)%Z -> String.length (String_of (Some n)) = 2%nat.
Proof.
  intros Hn.
  assert (H : all_in_range
                (fun z => (String.length (String_of (Some z)) =? 2)%nat)
                10%Z 90 = true) by (vm_compute; reflexivity).
  apply Nat.eqb_eq.
  apply (all_in_range_spec _ 90 10%Z n H). lia.
Qed.

Section DeltaField.
Variable StringToNumber_other : string -> jsnum.
Variable roundToDouble : number -> jsnum.
Variable toString_large : number -> string.

(** X17: in every state the component can reach, the Max Delta field and
    the profile summary show the upper delta bound as 0.dd, where dd is a
    whole number from 10 to 50 within half a unit of a hundred times the
    bound; the three profiles read 0.25, 0.30 and 0.35. *)
Theorem delta_field_shows_two_decimals (evs : list Event) (u : UiState) :
  let d := st_deltaMax
             (app (run StringToNumber_other roundToDouble mounted evs)) in
  (exists n : Z,
     (10 <= n <= 50)%Z /\
     toFixed toString_large (Finite d) 2 = ("0." ++ String_of (Some n))%string /\
     String.length (String_of (Some n)) = 2%nat /\
     Qabs (inject_Z n - d * 100) <= 1 # 2) /\
  toFixed toString_large
    (Finite (st_deltaMax (app (applyProfile Conservative u)))) 2 = "0.25"%string /\
  toFixed toString_large
    (Finite (st_deltaMax (app (applyProfile Normal u)))) 2 = "0.30"%string /\
  toFixed toString_large
    (Finite (st_deltaMax (app (applyProfile Aggressive u)))) 2 = "0.35"%string.
Proof.
  intros d. split; [|repeat split].
  pose proof (run_in_range StringToNumber_other roundToDouble evs mounted
                mounted_in_range) as (_ & [Hlo Hhi] & _).
  fold d in Hlo, Hhi.
  assert (Hmin : 1 # 10 <= DELTA_MAX_MIN) by q_order.
  unfold DELTA_MAX_MAX in Hhi.
  assert (Hd : 0 <= d) by lra.
  destruct (nearest_scaled_spec d 100 Hd ltac:(lia)) as [Hn Hnear].
  set (n := Qfloor (d * inject_Z 100 + (1 # 2))) in *.
  change (inject_Z 100) with 100 in Hnear.
  apply Qabs_Qle_condition in Hnear. destruct Hnear as [Hn1 Hn2].
  assert (H10 : (10 <= n)%Z).
  { assert (H : inject_Z 9 < inject_Z n)
      by (change (inject_Z 9) with 9; lra).
    rewrite <- Zlt_Qlt in H. lia. }
  assert (H50 : (n <= 50)%Z).
  { assert (H : inject_Z n < inject_Z 51)
      by (change (inject_Z 51) with 51; lra).
    rewrite <- Zlt_Qlt in H. lia. }
  pose proof (String_of_two_digits n ltac:(lia)) as Hlen.
  exists n. split; [lia|]. split; [|split; [exact Hlen|]].
  - unfold toFixed. rewrite (Qabs_nonneg_eq d Hd).
    replace (Qle_bool 0 d) with true
      by (symmetry; apply Qle_bool_iff; exact Hd).
    replace (Qle_bool (inject_Z (10 ^ 21)) d) with false.
    + unfold toFixed_digits.
      change (Qfloor (d * inject_Z (10 ^ Z.of_nat 2) + (1 # 2))) with n.
      replace (n =? 0)%Z with false by (symmetry; apply Z.eqb_neq; lia).
      destruct (String_of (Some n)) as [|c1 [|c2 [|c3 rest]]];
        try discriminate Hlen.
      reflexivity.
    + symmetry. destruct (Qle_bool (inject_Z (10 ^ 21)) d) eqn:E;
        [|reflexivity].
      apply Qle_bool_iff in E. exfalso.
      assert (H : 1 < inject_Z (10 ^ 21)) by reflexivity. lra.
  - apply Qabs_Qle_condition. split; assumption.
Qed.
End DeltaField.
